(** * data-grav: the streaming data generator of [src/data-generator/generate.js]

    A shallow embedding of [generate.js] and the properties of its size
    parser, of its two chunk generators, of [generateData] and of the
    command; and of [format_duration] of the script that calls the
    generator, [src/data-generator/bulk-upload.sh].

    Conventions of the embedding.
    - A JavaScript string is the list of its UTF-16 code units.
    - A byte is an integer in [0, 256).
    - Counters ([generated], [bytesWritten], lengths) are JavaScript numbers
      in the source. They hold integers, which binary64 represents exactly
      below 2^53; the embedding uses [Z] for them. Memory is unbounded: the
      allocation limits of the platform (maximal string and Buffer length)
      are not part of the embedding.
    - Where the source computes with fractions ([parseFloat], the product in
      [parseSize], the percentage of the progress report) the embedding
      rounds as binary64 does, see [Module F64].
    - File-system calls succeed; the clock ([Date.now]) only feeds console
      text and is left out of the recorded events. *)

From Stdlib Require Import ZArith String Ascii Lia Bool.
From stdpp Require Import base list.

Local Open Scope Z_scope.

(** ** JavaScript strings *)

Abbreviation jsstring := (list Z) (only parsing).

(** An ASCII literal as a JavaScript string. *)
Definition str (s : string) : jsstring :=
  map (fun a => Z.of_N (N_of_ascii a)) (list_ascii_of_string s).

Definition jsstring_eqb (a b : jsstring) : bool := bool_decide (a = b).

(** [String.prototype.toUpperCase], on the code units where this program
    applies it (ASCII letters; other units of a matched unit never occur). *)
Definition upper_unit (c : Z) : Z :=
  if (97 <=? c) && (c <=? 122) then c - 32 else c.

Definition toUpperCase (s : jsstring) : jsstring := map upper_unit s.

(** [s.slice(0, e)] for a string or a Buffer: a negative end counts from the
    end, an end beyond the length is the length. *)
Definition slice0 {A} (s : list A) (e : Z) : list A :=
  let len := Z.of_nat (length s) in
  let upto := if e <? 0 then Z.max (len + e) 0 else Z.min e len in
  take (Z.to_nat upto) s.

(** [s.repeat(n)] for [0 <= n]. *)
Fixpoint repeat_string (s : jsstring) (n : nat) : jsstring :=
  match n with
  | O => []
  | S k => s ++ repeat_string s k
  end.

(** ** Binary64 arithmetic on the non-negative numbers the program computes *)

Module F64.

(** [Fin m e] is the number [m * 2^e], with [0 <= m]. *)
Inductive t := Fin (m e : Z) | PInf | NaN.

(** The exponent of the least subnormal number. *)
Definition emin : Z := -1074.

(** The fraction [p / q] written over a denominator scaled by [2^e]:
    [p / (q * 2^e)] as a pair of integers. *)
Definition scaled (p q e : Z) : Z * Z :=
  if 0 <=? e then (p, q * 2 ^ e) else (p * 2 ^ (- e), q).

(** [floor (log2 (p / q))] for [0 < p] and [0 < q]. *)
Definition ilog2 (p q : Z) : Z :=
  let l := Z.log2 p - Z.log2 q in
  let '(n, d) := scaled p q l in
  if d <=? n then l else l - 1.

(** The integer nearest to [n / d], ties to the even one. *)
Definition nearest_even (n d : Z) : Z :=
  let m := n / d in
  let r := n mod d in
  if 2 * r <? d then m
  else if d <? 2 * r then m + 1
  else if Z.even m then m else m + 1.

(** Rounding of the fraction [p / q] ([0 <= p], [0 < q]) to binary64,
    roundTiesToEven: 53 significant bits, subnormals from [2^emin],
    infinity from [2^1024]. A significand rounded up to [2^53] is
    written as [2^52] with the next exponent. *)
Definition round (p q : Z) : t :=
  if p =? 0 then Fin 0 0
  else
    let e := Z.max (ilog2 p q - 52) emin in
    let '(n, d) := scaled p q e in
    let m := nearest_even n d in
    let '(m, e) := if m =? 2 ^ 53 then (2 ^ 52, e + 1) else (m, e) in
    if m * 2 ^ Z.max e 0 <? 2 ^ 1024 then Fin m e else PInf.

(** The exact value of a finite number, as a fraction. *)
Definition frac (m e : Z) : Z * Z :=
  if 0 <=? e then (m * 2 ^ e, 1) else (m, 2 ^ (- e)).

(** The binary64 number nearest to an integer. *)
Definition of_Z (z : Z) : t := round z 1.

(** Product, quotient and sum: the exact result, rounded. *)
Definition mul (a b : t) : t :=
  match a, b with
  | NaN, _ | _, NaN => NaN
  | Fin m1 e1, Fin m2 e2 =>
      let '(p1, q1) := frac m1 e1 in
      let '(p2, q2) := frac m2 e2 in
      round (p1 * p2) (q1 * q2)
  | Fin m _, PInf | PInf, Fin m _ => if m =? 0 then NaN else PInf
  | PInf, PInf => PInf
  end.

Definition div (a b : t) : t :=
  match a, b with
  | NaN, _ | _, NaN => NaN
  | Fin m1 e1, Fin m2 e2 =>
      if m2 =? 0 then (if m1 =? 0 then NaN else PInf)
      else
        let '(p1, q1) := frac m1 e1 in
        let '(p2, q2) := frac m2 e2 in
        round (p1 * q2) (q1 * p2)
  | Fin _ _, PInf => Fin 0 0
  | PInf, Fin _ _ => PInf
  | PInf, PInf => NaN
  end.

Definition add (a b : t) : t :=
  match a, b with
  | NaN, _ | _, NaN => NaN
  | Fin m1 e1, Fin m2 e2 =>
      let '(p1, q1) := frac m1 e1 in
      let '(p2, q2) := frac m2 e2 in
      round (p1 * q2 + p2 * q1) (q1 * q2)
  | _, _ => PInf
  end.

(** [a >= b]; false when either side is NaN. *)
Definition geb (a b : t) : bool :=
  match a, b with
  | Fin m1 e1, Fin m2 e2 =>
      let '(p1, q1) := frac m1 e1 in
      let '(p2, q2) := frac m2 e2 in
      p2 * q1 <=? p1 * q2
  | PInf, Fin _ _ | PInf, PInf => true
  | Fin _ _, PInf => false
  | NaN, _ | _, NaN => false
  end.

End F64.

(** The integral numbers the generators receive: what [Math.floor] returns. *)
Inductive number := Int (z : Z) | PosInfinity | NotANumber.

(** [Math.floor]; the floor of a finite number is exact. *)
Definition Math_floor (x : F64.t) : number :=
  match x with
  | F64.Fin m e => let '(p, q) := F64.frac m e in Int (p / q)
  | F64.PInf => PosInfinity
  | F64.NaN => NotANumber
  end.

(** An integral number in a binary64 operation. *)
Definition number_to_F64 (n : number) : F64.t :=
  match n with
  | Int z => F64.of_Z z
  | PosInfinity => F64.PInf
  | NotANumber => F64.NaN
  end.

(** ** Errors and results *)

(** What the program throws. [InvalidSizeFormat s] is
    [Error("Invalid size format: s. ...")], [UnknownType t] is
    [Error("Unknown type: t. ...")]; [RangeError] is thrown by the runtime
    ([Buffer.allocUnsafe] on a negative or infinite size, [String.repeat] on a
    negative or infinite count). *)
Inductive error :=
| InvalidSizeFormat (sizeStr : jsstring)
| UnknownType (type : jsstring)
| RangeError.

Inductive result (A : Type) := Ok (a : A) | Err (e : error).
Arguments Ok {A} a.
Arguments Err {A} e.

(** ** parseSize *)

(** The class [\d]: the ASCII digits. *)
Definition is_digit (c : Z) : bool := (48 <=? c) && (c <=? 57).

(** The class [\s] of a JavaScript regular expression: white space and line
    terminators. *)
Definition is_space (c : Z) : bool :=
  ((9 <=? c) && (c <=? 13)) || (c =? 32) || (c =? 160) || (c =? 5760)
  || ((8192 <=? c) && (c <=? 8202)) || (c =? 8232) || (c =? 8233)
  || (c =? 8239) || (c =? 8287) || (c =? 12288) || (c =? 65279).

(** The longest prefix of [s] whose units satisfy [p], and the rest. *)
Fixpoint span (p : Z -> bool) (s : jsstring) : jsstring * jsstring :=
  match s with
  | [] => ([], [])
  | c :: r => if p c then let '(a, b) := span p r in (c :: a, b) else ([], s)
  end.

(** The alternatives of the unit group, as written in the pattern. *)
Definition unit_alternatives : list jsstring :=
  [str "B"; str "KB"; str "MB"; str "GB"; str "TB"].

(** Matching under the [i] flag: code units are compared after
    canonicalization, which maps [a-z] to [A-Z] and never maps a unit
    outside ASCII to an ASCII one. *)
Definition matches_ci (s pat : jsstring) : bool :=
  jsstring_eqb (map upper_unit s) pat.

(** [sizeStr.match(/^(\d+(?:\.\d+)?)\s*(B|KB|MB|GB|TB)?$/i)]: the two
    capture groups, the second one [None] when the unit is absent. Every
    greedy choice of the pattern is forced (after a run of digits, of
    spaces, or a dot, no shorter choice lets the rest match), so the match
    is computed left to right without backtracking. That this accepts the
    language of the pattern, [size_shape], with these captures, is
    [size_match_accepts] and [size_match_sound] below. *)
Definition size_match (sizeStr : jsstring) : option (jsstring * option jsstring) :=
  let '(ip, r1) := span is_digit sizeStr in
  match ip with
  | [] => None
  | _ =>
      let after_number :=
        match r1 with
        | 46 :: r2 =>
            let '(fp, r3) := span is_digit r2 in
            match fp with
            | [] => None
            | _ => Some (ip ++ 46 :: fp, r3)
            end
        | _ => Some (ip, r1)
        end in
      match after_number with
      | None => None
      | Some (num, r3) =>
          let '(_, r4) := span is_space r3 in
          match r4 with
          | [] => Some (num, None)
          | _ =>
              if existsb (matches_ci r4) unit_alternatives
              then Some (num, Some r4) else None
          end
      end
  end.

(** The value of a run of decimal digits. *)
Definition digits_value (ds : jsstring) : Z :=
  fold_left (fun acc d => 10 * acc + (d - 48)) ds 0.

(** [parseFloat] on the numerals the pattern captures, [digits] or
    [digits.digits]: the binary64 number nearest to the decimal value.
    (No other text reaches [parseFloat] in this program; it is NaN here.) *)
Definition parseFloat (s : jsstring) : F64.t :=
  let '(ip, r) := span is_digit s in
  match ip, r with
  | _ :: _, [] => F64.round (digits_value ip) 1
  | _ :: _, 46 :: fp =>
      if forallb is_digit fp && negb (bool_decide (fp = []))
      then F64.round (digits_value (ip ++ fp)) (10 ^ Z.of_nat (length fp))
      else F64.NaN
  | _, _ => F64.NaN
  end.

(** The object [multipliers], by key. *)
Definition multipliers : list (jsstring * Z) :=
  [ (str "B", 1);
    (str "KB", 1024);
    (str "MB", 1024 * 1024);
    (str "GB", 1024 * 1024 * 1024);
    (str "TB", 1024 * 1024 * 1024 * 1024) ].

(** [multipliers[unit]]. The unit is one of the five keys whenever the
    pattern has matched; for any other key the product would be NaN. *)
Definition multiplier (unit : jsstring) : F64.t :=
  match List.find (fun kv => jsstring_eqb (fst kv) unit) multipliers with
  | Some kv => F64.of_Z (snd kv)
  | None => F64.NaN
  end.

(** [parseSize] (generate.js, lines 16 to 34). *)
Definition parseSize (sizeStr : jsstring) : result number :=
  match size_match sizeStr with
  | None => Err (InvalidSizeFormat sizeStr)
  | Some (m1, m2) =>
      let value := parseFloat m1 in
      let unit := toUpperCase (default (str "B") m2) in
      Ok (Math_floor (F64.mul value (multiplier unit)))
  end.

(** ** The environment of a run *)

(** The lines the program prints; their wording and the clock readings in
    them are not recorded. *)
Inductive message :=
| Started (type : jsstring) (targetBytes : number) (output : jsstring)
| Complete (output : jsstring) (targetBytes : number).

Inductive event :=
| Console (msg : message)
| Mkdir (dirname_of : jsstring)
| CreateWriteStream (path : jsstring)
| FileWrite (bytes : list Z)
| Progress (progress : number) (bytesWritten : Z)
| FileEnd.

(** [heap i] is the byte found at offset [i] of memory that
    [Buffer.allocUnsafe] hands out without clearing it; [random n] is the
    value of [Math.floor(Math.random() * 256)] at the [n]-th call of
    [Math.random]; [drawn] counts these calls; [events] is what the run has
    done so far, oldest first. *)
Record World := {
  heap : nat -> Z;
  random : nat -> Z;
  drawn : nat;
  events : list event;
}.

Definition add_events (evs : list event) (w : World) : World :=
  {| heap := heap w; random := random w; drawn := drawn w;
     events := events w ++ evs |}.

Definition emit (ev : event) (w : World) : World := add_events [ev] w.

(** The bytes that reached the output file. *)
Fixpoint written (evs : list event) : list Z :=
  match evs with
  | [] => []
  | FileWrite bytes :: rest => bytes ++ written rest
  | _ :: rest => written rest
  end.

(** ** Readable streams *)

(** A class extending [Readable] overrides [_read], which pushes one value:
    [Some data] for [this.push(data)], [None] for [this.push(null)]. *)
Class Readable (G C : Type) := _read : G -> G * option C.

(** Pulling until the end of the sequence, at most [fuel] times: the chunks
    in order, or [None] when the end was not reached. *)
Fixpoint pull_all {G C} `{Readable G C} (fuel : nat) (g : G) : option (list C) :=
  match fuel with
  | O => None
  | S k =>
      match _read g with
      | (_, None) => Some []
      | (g', Some data) =>
          match pull_all k g' with
          | Some rest => Some (data :: rest)
          | None => None
          end
      end
  end.

(** The body shared by the two [_read] methods: the data to push when
    [generated] units were produced so far, [None] at the end.
    [Math.min] of a number and NaN is NaN, and [slice(0, NaN)] is empty. *)
Definition next_data {A} (targetSize : number) (generated : Z) (chunk : list A)
  : option (list A) :=
  let len := Z.of_nat (length chunk) in
  match targetSize with
  | Int t =>
      if t <=? generated then None
      else Some (slice0 chunk (Z.min (t - generated) len))
  | PosInfinity => Some (slice0 chunk len)
  | NotANumber => Some (slice0 chunk 0)
  end.

(** [options.chunkSize || 64 * 1024]: [undefined], [0] and NaN are falsy. *)
Definition chunkSize_or_default (chunkSize : option number) : number :=
  match chunkSize with
  | Some (Int 0) | Some NotANumber | None => Int (64 * 1024)
  | Some c => c
  end.

(** [Math.ceil(a / b)] for an integer [a] and [0 < b]. *)
Definition ceil_div (a b : Z) : Z := - ((- a) / b).

(** [class TextDataGenerator extends Readable] (lines 46 to 82). *)
Module TextDataGenerator.

Record t := {
  targetSize : number;
  generated : Z;
  basePattern : jsstring;
  chunkSize : number;
  chunk : jsstring;
}.

(** The built-in pattern (lines 54 to 58). *)
Definition default_pattern : jsstring :=
  str "Lorem ipsum dolor sit amet, consectetur adipiscing elit. "
  ++ str "Sed do eiusmod tempor incididunt ut labore et dolore magna aliqua. "
  ++ str "Ut enim ad minim veniam, quis nostrud exercitation ullamco laboris. "
  ++ str "Duis aute irure dolor in reprehenderit in voluptate velit esse cillum. "
  ++ str "Excepteur sint occaecat cupidatat non proident, sunt in culpa qui officia. ".

(** [options.pattern || default]: [undefined] and the empty string are
    falsy. *)
Definition pattern_or_default (pattern : option jsstring) : jsstring :=
  match pattern with
  | Some (c :: p) => c :: p
  | _ => default_pattern
  end.

(** [new TextDataGenerator(targetSize, {pattern, chunkSize})] (lines 47
    to 67); 10 is the line break added to the pattern.
    [String.prototype.repeat] throws a RangeError on a negative or
    infinite count. *)
Definition new (targetSize : number) (pattern : option jsstring)
    (chunkSize : option number) : result t :=
  let basePattern := pattern_or_default pattern ++ [10] in
  let chunkSize := chunkSize_or_default chunkSize in
  match chunkSize with
  | Int c =>
      let repetitions := ceil_div c (Z.of_nat (length basePattern)) in
      if repetitions <? 0 then Err RangeError
      else
        Ok {| targetSize := targetSize; generated := 0;
              basePattern := basePattern; chunkSize := chunkSize;
              chunk := slice0 (repeat_string basePattern (Z.to_nat repetitions)) c |}
  | PosInfinity => Err RangeError
  | NotANumber =>
      Ok {| targetSize := targetSize; generated := 0;
            basePattern := basePattern; chunkSize := chunkSize; chunk := [] |}
  end.

(** [_read] (lines 69 to 81). *)
Definition read (g : t) : t * option jsstring :=
  match next_data (targetSize g) (generated g) (chunk g) with
  | None => (g, None)
  | Some data =>
      ({| targetSize := targetSize g;
          generated := generated g + Z.of_nat (length data);
          basePattern := basePattern g; chunkSize := chunkSize g;
          chunk := chunk g |}, Some data)
  end.

End TextDataGenerator.

#[export] Instance text_readable : Readable TextDataGenerator.t jsstring :=
  TextDataGenerator.read.

(** [for (let i = 0; i < n; i++) body]: [for_loop n 0 body]. *)
Fixpoint for_loop {St} (n : nat) (i : nat) (body : nat -> St -> St) (s : St) : St :=
  match n with
  | O => s
  | S k => for_loop k (S i) body (body i s)
  end.

(** [class BinaryDataGenerator extends Readable] (lines 85 to 132). *)
Module BinaryDataGenerator.

Record t := {
  targetSize : number;
  generated : Z;
  chunkSize : number;
  chunk : list Z;
}.

(** [Buffer.allocUnsafe(size)]: [size] bytes of memory as it was found.
    A negative or infinite size is a RangeError. *)
Definition allocUnsafe (size : number) (w : World) : result (list Z) :=
  match size with
  | Int n =>
      if n <? 0 then Err RangeError
      else Ok (map (fun i => heap w i mod 256) (seq 0 (Z.to_nat n)))
  | PosInfinity => Err RangeError
  | NotANumber => Err RangeError
  end.

(** [buffer[i] = v]: a Buffer stores bytes, and ignores an index out of
    range. *)
Definition store (i : nat) (v : Z) (buffer : list Z) : list Z :=
  <[i := v mod 256]> buffer.

Definition sequence : list Z :=
  [0; 1; 2; 3; 4; 5; 6; 7; 8; 9; 10; 11; 12; 13; 14; 15].

(** [createBinaryPattern] (lines 96 to 117). Every branch writes all
    [size] bytes of the Buffer. *)
Definition createBinaryPattern (size : number) (pattern : option jsstring)
    (w : World) : result (list Z) * World :=
  match allocUnsafe size w with
  | Err e => (Err e, w)
  | Ok buffer =>
      let n := length buffer in
      if bool_decide (pattern = Some (str "random")) then
        let '(buffer', k) :=
          for_loop n 0
            (fun i '(b, k) => (store i (random w k) b, S k))
            (buffer, drawn w) in
        (Ok buffer',
         {| heap := heap w; random := random w; drawn := k;
            events := events w |})
      else if bool_decide (pattern = Some (str "zeros")) then
        (Ok (map (fun _ => 0) buffer), w)
      else if bool_decide (pattern = Some (str "ones")) then
        (Ok (map (fun _ => 255) buffer), w)
      else
        (Ok (for_loop n 0
               (fun i b =>
                  store i (default 0 (sequence !! (i mod length sequence)%nat)) b)
               buffer), w)
  end.

(** [new BinaryDataGenerator(targetSize, {pattern, chunkSize})]
    (lines 86 to 94). *)
Definition new (targetSize : number) (pattern : option jsstring)
    (chunkSize : option number) (w : World) : result t * World :=
  let chunkSize := chunkSize_or_default chunkSize in
  match createBinaryPattern chunkSize pattern w with
  | (Err e, w') => (Err e, w')
  | (Ok chunk, w') =>
      (Ok {| targetSize := targetSize; generated := 0;
             chunkSize := chunkSize; chunk := chunk |}, w')
  end.

(** [_read] (lines 119 to 131). *)
Definition read (g : t) : t * option (list Z) :=
  match next_data (targetSize g) (generated g) (chunk g) with
  | None => (g, None)
  | Some data =>
      ({| targetSize := targetSize g;
          generated := generated g + Z.of_nat (length data);
          chunkSize := chunkSize g; chunk := chunk g |}, Some data)
  end.

End BinaryDataGenerator.

#[export] Instance binary_readable : Readable BinaryDataGenerator.t (list Z) :=
  BinaryDataGenerator.read.

(** ** From pushed values to bytes *)

Definition is_high_surrogate (c : Z) : bool := (55296 <=? c) && (c <=? 56319).
Definition is_low_surrogate (c : Z) : bool := (56320 <=? c) && (c <=? 57343).

(** [Buffer.from(s, 'utf8')]: a surrogate pair is one code point of four
    bytes, a lone surrogate is written as U+FFFD. *)
Fixpoint utf8_encode (s : jsstring) : list Z :=
  match s with
  | [] => []
  | c :: r =>
      if c <? 128 then c :: utf8_encode r
      else if c <? 2048 then
        192 + c / 64 :: 128 + c mod 64 :: utf8_encode r
      else if is_high_surrogate c then
        match r with
        | d :: r' =>
            if is_low_surrogate d then
              let cp := 65536 + (c - 55296) * 1024 + (d - 56320) in
              240 + cp / 262144 :: 128 + (cp / 4096) mod 64
                :: 128 + (cp / 64) mod 64 :: 128 + cp mod 64 :: utf8_encode r'
            else 239 :: 191 :: 189 :: utf8_encode r
        | [] => [239; 191; 189]
        end
      else if is_low_surrogate c then 239 :: 191 :: 189 :: utf8_encode r
      else
        224 + c / 4096 :: 128 + (c / 64) mod 64 :: 128 + c mod 64
          :: utf8_encode r
  end.

(** The generator [generateData] creates. *)
Inductive generator :=
| TextGen (g : TextDataGenerator.t)
| BinaryGen (g : BinaryDataGenerator.t).

(** One [_read] of the stream and the Buffer its ['data'] event carries.
    [Readable.push] turns a pushed string into a Buffer in the default
    encoding, utf8 (the generators set neither [encoding] nor
    [objectMode]); a Buffer is passed on as it is. *)
Definition stream_read (g : generator) : generator * option (list Z) :=
  match g with
  | TextGen g =>
      let '(g', data) := _read g in (TextGen g', utf8_encode <$> data)
  | BinaryGen g =>
      let '(g', data) := _read g in (BinaryGen g', data)
  end.

#[export] Instance stream_readable : Readable generator (list Z) := stream_read.

(** ** generateData *)

(** A run returns, throws, or is still unfinished when the fuel of the
    stream driver is used up. *)
Inductive outcome (A : Type) := Returned (a : A) | Thrown (e : error) | Unfinished.
Arguments Returned {A} a.
Arguments Thrown {A} e.
Arguments Unfinished {A}.

Definition M (A : Type) : Type := World -> outcome A * World.

Definition ret {A} (a : A) : M A := fun w => (Returned a, w).

Definition bind {A B} (c : M A) (k : A -> M B) : M B :=
  fun w =>
    match c w with
    | (Returned a, w') => k a w'
    | (Thrown e, w') => (Thrown e, w')
    | (Unfinished, w') => (Unfinished, w')
    end.

Notation "'do' x <- c ; k" := (bind c (fun x => k))
  (at level 10, x name, c at level 100, k at level 200).

Definition throw {A} (e : error) : M A := fun w => (Thrown e, w).

Definition of_result {A} (r : result A) : M A :=
  match r with
  | Ok a => ret a
  | Err e => throw e
  end.

Definition log (ev : event) : M unit := fun w => (Returned tt, emit ev w).

(** The state of the progress listener. *)
Record progress_state := {
  lastProgress : number;
  bytesWritten : Z;
}.

Definition number_eqb (z : Z) (n : number) : bool :=
  match n with
  | Int t => z =? t
  | _ => false
  end.

(** The ['data'] listener of [generateData] (lines 168 to 178). *)
Definition on_data (targetBytes : number) (chunk : list Z) (st : progress_state)
  : M progress_state :=
  let bytesWritten := bytesWritten st + Z.of_nat (length chunk) in
  let progress :=
    Math_floor
      (F64.mul (F64.div (F64.of_Z bytesWritten) (number_to_F64 targetBytes))
               (F64.of_Z 100)) in
  if F64.geb (number_to_F64 progress)
             (F64.add (number_to_F64 (lastProgress st)) (F64.of_Z 10))
     || number_eqb bytesWritten targetBytes
  then
    do _ <- log (Progress progress bytesWritten) ;
    ret {| lastProgress := progress; bytesWritten := bytesWritten |}
  else ret {| lastProgress := lastProgress st; bytesWritten := bytesWritten |}.

(** The stream in flowing mode, piped into the file: every Buffer that is
    read goes to the listener first, registered first, then to the file. A
    pushed value of length 0 is not emitted (a generator that pushes one
    pushes nothing else, and its stream never ends). [push(null)] ends the
    stream and the file. *)
Fixpoint flow {L} (fuel : nat) (listener : list Z -> L -> M L) (l : L)
    (g : generator) : M unit :=
  match fuel with
  | O => fun w => (Unfinished, w)
  | S k =>
      match stream_read g with
      | (_, None) => log FileEnd
      | (g', Some []) => flow k listener l g'
      | (g', Some chunk) =>
          do l' <- listener chunk l ;
          do _ <- log (FileWrite chunk) ;
          flow k listener l' g'
      end
  end.

(** [pipeline(generator, writeStream)] with no other listener. *)
Definition pipeline (fuel : nat) (g : generator) : M unit :=
  flow fuel (fun _ (l : unit) => ret l) tt g.

(** The events of a run without the progress reports. *)
Definition without_progress (evs : list event) : list event :=
  List.filter (fun ev => match ev with Progress _ _ => false | _ => true end) evs.

Record Options := {
  pattern : option jsstring;
  binaryPattern : option jsstring;
  chunkSize : option number;
}.

(** The choice of the generator (lines 149 to 162). *)
Definition new_generator (type : jsstring) (targetBytes : number)
    (options : Options) : M generator :=
  if bool_decide (type = str "text") then
    do g <- of_result
              (TextDataGenerator.new targetBytes (pattern options)
                 (chunkSize options)) ;
    ret (TextGen g)
  else if bool_decide (type = str "binary") then
    do g <- (fun w =>
            match BinaryDataGenerator.new targetBytes (binaryPattern options)
                    (chunkSize options) w with
            | (Ok g, w') => (Returned g, w')
            | (Err e, w') => (Thrown e, w')
            end) ;
    ret (BinaryGen g)
  else throw (UnknownType type).

(** [generateData] (lines 135 to 194). [fuel] bounds the number of reads
    of the stream. *)
Definition generateData (fuel : nat) (type size output : jsstring)
    (options : Options) : M unit :=
  do targetBytes <- of_result (parseSize size) ;
  do _ <- log (Console (Started type targetBytes output)) ;
  do _ <- log (Mkdir output) ;
  do generator <- new_generator type targetBytes options ;
  do _ <- log (CreateWriteStream output) ;
  do _ <- flow fuel (on_data targetBytes)
            {| lastProgress := Int 0; bytesWritten := 0 |} generator ;
  log (Console (Complete output targetBytes)).

(** The options of the command line, with the defaults the option parser
    fills in for [--binary-pattern] and [--chunk-size]. *)
Record CommandLine := {
  cli_type : jsstring;
  cli_size : jsstring;
  cli_output : jsstring;
  cli_pattern : option jsstring;
  cli_binaryPattern : jsstring;
  cli_chunkSize : jsstring;
}.

(** The action of the command (lines 209 to 227), up to its [catch],
    which prints the error and exits with status 1. *)
Definition action (fuel : nat) (options : CommandLine) : M unit :=
  do chunkSize <- of_result (parseSize (cli_chunkSize options)) ;
  generateData fuel (cli_type options) (cli_size options) (cli_output options)
    {| pattern := cli_pattern options;
       binaryPattern := Some (cli_binaryPattern options);
       chunkSize := Some chunkSize |}.

(** A world in which nothing has happened yet. *)
Definition fresh (heap random : nat -> Z) : World :=
  {| heap := heap; random := random; drawn := 0; events := [] |}.

(** ** The script that calls the generator *)




(** * Vocabulary of the properties *)

(** [l.length], as an integer. *)
Definition len {A} (l : list A) : Z := Z.of_nat (length l).

(** The sequence a generator is to produce when [r] units remain: the
    chunk, as many times as it fits, and the rest of [r] if there is one. *)
Definition expected_chunks {A} (r : Z) (chunk : list A) : list (list A) :=
  let c := len chunk in
  replicate (Z.to_nat (r / c)) chunk
  ++ (if r mod c =? 0 then [] else [take (Z.to_nat (r mod c)) chunk]).

(** Pulling [g] to the end of its sequence yields [chunks]; this takes one
    pull per chunk and one more for the end, so more than [n] pulls when
    there are [n] chunks. *)
Definition yields {G C} `{Readable G C} (g : G) (n : Z) (chunks : list C) : Prop :=
  forall fuel, (Z.to_nat n < fuel)%nat -> pull_all fuel g = Some chunks.


(** The fill strategy a pattern argument selects. *)
Inductive fill := SequentialBytes | Zeros | Ones | Random.

(** The comparisons of [createBinaryPattern], in its order: every pattern
    other than the three names, and no pattern, is the sequential fill. *)
Definition fill_of (pattern : option jsstring) : fill :=
  if bool_decide (pattern = Some (str "random")) then Random
  else if bool_decide (pattern = Some (str "zeros")) then Zeros
  else if bool_decide (pattern = Some (str "ones")) then Ones
  else SequentialBytes.

(** Byte [i] of the chunk a strategy builds, in a world [w]. *)
Definition pattern_byte (f : fill) (w : World) (i : nat) : Z :=
  match f with
  | SequentialBytes => Z.of_nat (i mod 16)
  | Zeros => 0
  | Ones => 255
  | Random => random w (drawn w + i)%nat mod 256
  end.


(** A computation that only appends events, the same ones in every world,
    and whose outcome does not depend on the world. *)
Definition logs_only {A} (c : M A) : Prop :=
  exists o evs, forall w, c w = (o, add_events evs w).

(** Events that create the output file or write to it. *)
Definition touches_file (ev : event) : bool :=
  match ev with
  | CreateWriteStream _ | FileWrite _ | FileEnd => true
  | _ => false
  end.

(** A numeral: [digits] or [digits.digits]. *)
Inductive numeral :=
| Whole (ip : jsstring)
| Fraction (ip fp : jsstring).

(** The text of a numeral; 46 is the dot. *)
Definition numeral_text (n : numeral) : jsstring :=
  match n with
  | Whole ip => ip
  | Fraction ip fp => ip ++ 46 :: fp
  end.

(** A run of one or more ASCII digits. *)
Definition digits (s : jsstring) : Prop :=
  s <> [] /\ Forall (fun c => is_digit c = true) s.

(** Both parts of a numeral are runs of digits. *)
Definition numeral_ok (n : numeral) : Prop :=
  match n with
  | Whole ip => digits ip
  | Fraction ip fp => digits ip /\ digits fp
  end.

(** The decimal value of a numeral, as a fraction. *)
Definition numeral_value (n : numeral) : Z * Z :=
  match n with
  | Whole ip => (digits_value ip, 1)
  | Fraction ip fp => (digits_value (ip ++ fp), 10 ^ Z.of_nat (length fp))
  end.

(** The power of 1024 a unit stands for; no unit is bytes. The letters of
    a unit may be in either case. *)
Definition unit_exponent (u : jsstring) : option Z :=
  if bool_decide (u = []) then Some 0
  else if matches_ci u (str "B") then Some 0
  else if matches_ci u (str "KB") then Some 1
  else if matches_ci u (str "MB") then Some 2
  else if matches_ci u (str "GB") then Some 3
  else if matches_ci u (str "TB") then Some 4
  else None.

(** [s] is a numeral, any run of white space, and an optional unit. *)
Definition size_shape (s : jsstring) (n : numeral) (ws u : jsstring) (k : Z) : Prop :=
  s = numeral_text n ++ ws ++ u
  /\ numeral_ok n
  /\ Forall (fun c => is_space c = true) ws
  /\ unit_exponent u = Some k.

(** The second capture group for a unit. *)
Definition captured_unit (u : jsstring) : option jsstring :=
  match u with
  | [] => None
  | _ => Some u
  end.

(** [floor (d * 1024^k)] for a binary64 number [d]; [Z.shiftl m s] is
    [floor (m * 2^s)]. The product is infinite from [2^1024]. *)
Definition scaled_floor (d : F64.t) (k : Z) : number :=
  match d with
  | F64.Fin m e =>
      if Z.shiftl m (e + 10 * k) <? 2 ^ 1024
      then Int (Z.shiftl m (e + 10 * k)) else PosInfinity
  | F64.PInf => PosInfinity
  | F64.NaN => NotANumber
  end.

(** The narrower shape of the specification: at most one space before the
    unit. *)
Definition one_space_shape (s : jsstring) : Prop :=
  exists n sp u k,
    s = numeral_text n ++ sp ++ u /\ numeral_ok n
    /\ (sp = [] \/ sp = [32]) /\ unit_exponent u = Some k.




(** The events of [generateData] up to the stream: the start is printed,
    the directory made and the file created. *)
Definition opened (type output : jsstring) (targetBytes : number) : list event :=
  [Console (Started type targetBytes output); Mkdir output;
   CreateWriteStream output].


(** * Properties *)

(** ** The shape of a size string (C4) *)

Lemma span_spec (p : Z -> bool) (s : jsstring) :
  forall a b, span p s = (a, b) ->
  s = a ++ b /\ Forall (fun c => p c = true) a
  /\ match b with [] => True | c :: _ => p c = false end.
Proof.
  induction s as [|c s IH]; intros a b; simpl.
  - intros [= <- <-]. repeat split. constructor.
  - destruct (p c) eqn:Hc.
    + destruct (span p s) as [a' b']. intros [= <- <-].
      destruct (IH a' b' eq_refl) as (-> & Ha & Hb).
      repeat split; [now constructor | assumption].
    + intros [= <- <-]. repeat split; [constructor | assumption].
Qed.

Lemma span_app (p : Z -> bool) (a b : jsstring) :
  Forall (fun c => p c = true) a ->
  match b with [] => True | c :: _ => p c = false end ->
  span p (a ++ b) = (a, b).
Proof.
  intros Ha Hb. induction Ha as [|c a Hc _ IH]; simpl.
  - destruct b as [|c b]; [reflexivity|]. simpl. now rewrite Hb.
  - now rewrite Hc, IH.
Qed.

Lemma unit_exponent_cases (u : jsstring) (k : Z) :
  unit_exponent u = Some k ->
  (u = [] /\ k = 0)
  \/ (u <> []
      /\ ((toUpperCase u = str "B" /\ k = 0)
          \/ (toUpperCase u = str "KB" /\ k = 1)
          \/ (toUpperCase u = str "MB" /\ k = 2)
          \/ (toUpperCase u = str "GB" /\ k = 3)
          \/ (toUpperCase u = str "TB" /\ k = 4))).
Proof.
  unfold unit_exponent, matches_ci, jsstring_eqb, toUpperCase.
  case_bool_decide as H0; [intros [= <-]; now left|].
  intros H. right. split; [assumption|].
  repeat (case_bool_decide; [injection H as <-; tauto|]).
  discriminate.
Qed.

(** The first code unit of a unit is a letter: no digit, no dot, no space. *)
Lemma unit_head (u : jsstring) (k : Z) :
  unit_exponent u = Some k ->
  match u with
  | [] => True
  | c :: _ => is_digit c = false /\ is_space c = false /\ c <> 46
  end.
Proof.
  intros H. destruct (unit_exponent_cases u k H) as [[-> _] | (Hne & Hu)];
    [exact I|].
  destruct u as [|c u]; [exact I|].
  assert (Hc : upper_unit c = 66 \/ upper_unit c = 75 \/ upper_unit c = 77
               \/ upper_unit c = 71 \/ upper_unit c = 84).
  { unfold toUpperCase in Hu. simpl in Hu.
    destruct Hu as [[Hu _] | [[Hu _] | [[Hu _] | [[Hu _] | [Hu _]]]]];
      injection Hu as -> _; tauto. }
  unfold upper_unit in Hc. unfold is_digit, is_space.
  destruct ((97 <=? c) && (c <=? 122)) eqn:E; repeat split; lia.
Qed.

Lemma head_of_rest (ws u : jsstring) (k : Z) :
  Forall (fun c => is_space c = true) ws -> unit_exponent u = Some k ->
  match ws ++ u with
  | [] => True
  | c :: _ => is_digit c = false /\ c <> 46
  end.
Proof.
  intros Hws Hu. destruct Hws as [|c ws Hc _]; simpl.
  - pose proof (unit_head u k Hu) as H. destruct u; [exact I | tauto].
  - unfold is_space in Hc. unfold is_digit. split; lia.
Qed.

Lemma unit_matches (u : jsstring) (k : Z) :
  u <> [] -> unit_exponent u = Some k ->
  existsb (matches_ci u) unit_alternatives = true.
Proof.
  intros Hne Hu.
  destruct (unit_exponent_cases u k Hu) as [[-> _] | [_ H]]; [congruence|].
  unfold matches_ci, jsstring_eqb. unfold toUpperCase in H. simpl.
  destruct H as [[-> _] | [[-> _] | [[-> _] | [[-> _] | [-> _]]]]]; reflexivity.
Qed.

Lemma matches_unit (u : jsstring) :
  u <> [] -> existsb (matches_ci u) unit_alternatives = true ->
  exists k, unit_exponent u = Some k.
Proof.
  intros Hne. unfold unit_exponent. rewrite bool_decide_eq_false_2 by assumption.
  simpl. rewrite orb_false_r.
  destruct (matches_ci u (str "B")); [eauto|].
  destruct (matches_ci u (str "KB")); [eauto|].
  destruct (matches_ci u (str "MB")); [eauto|].
  destruct (matches_ci u (str "GB")); [eauto|].
  destruct (matches_ci u (str "TB")); [eauto | discriminate].
Qed.

(** The pattern accepts every string of the shape. *)
Lemma size_match_accepts (s : jsstring) (n : numeral) (ws u : jsstring) (k : Z) :
  size_shape s n ws u k ->
  size_match s = Some (numeral_text n, captured_unit u).
Proof.
  intros (-> & Hn & Hws & Hu).
  pose proof (head_of_rest ws u k Hws Hu) as Hrest.
  pose proof (unit_head u k Hu) as Hhead.
  assert (Htail : forall num : jsstring,
             (let '(_, r4) := span is_space (ws ++ u) in
              match r4 with
              | [] => Some (num, None)
              | _ => if existsb (matches_ci r4) unit_alternatives
                     then Some (num, Some r4) else None
              end) = Some (num, captured_unit u)).
  { intros num. rewrite span_app; [|assumption|destruct u; tauto].
    destruct u as [|c u]; [reflexivity|].
    now rewrite (unit_matches (c :: u) k). }
  unfold size_match. destruct n as [ip | ip fp]; simpl in *.
  - destruct Hn as [Hne Hd].
    rewrite span_app; [|assumption|destruct (ws ++ u); tauto].
    destruct ip as [|d ip]; [congruence|].
    set (rest := ws ++ u) in *. clearbody rest.
    destruct rest as [|c r].
    + apply Htail.
    + destruct Hrest as [_ Hdot].
      assert (Hr : match c :: r with
                   | 46 :: r2 =>
                       let '(fp, r3) := span is_digit r2 in
                       match fp with
                       | [] => None
                       | _ => Some ((d :: ip) ++ 46 :: fp, r3)
                       end
                   | _ => Some (d :: ip, c :: r)
                   end = Some (d :: ip, c :: r)).
      { destruct c as [|c|c]; try reflexivity.
        do 6 (destruct c as [c|c|]; try reflexivity). congruence. }
      rewrite Hr. apply Htail.
  - destruct Hn as [[Hne Hd] [Hnf Hdf]].
    rewrite <- app_assoc. simpl.
    rewrite span_app; [|assumption|reflexivity].
    destruct ip as [|d ip]; [congruence|].
    rewrite span_app; [|assumption|destruct (ws ++ u); tauto].
    destruct fp as [|f fp]; [congruence|].
    apply Htail.
Qed.

(** The pattern accepts only strings of the shape. *)
Lemma size_match_sound (s m1 : jsstring) (m2 : option jsstring) :
  size_match s = Some (m1, m2) ->
  exists n ws u k,
    size_shape s n ws u k /\ m1 = numeral_text n /\ m2 = captured_unit u.
Proof.
  unfold size_match.
  destruct (span is_digit s) as [ip r1] eqn:E1.
  destruct (span_spec _ _ _ _ E1) as (-> & Hip & Hr1).
  destruct ip as [|d ip]; [discriminate|].
  assert (Htail : forall (n : numeral) (r3 : jsstring),
             numeral_ok n ->
             (let '(_, r4) := span is_space r3 in
              match r4 with
              | [] => Some (numeral_text n, None)
              | _ => if existsb (matches_ci r4) unit_alternatives
                     then Some (numeral_text n, Some r4) else None
              end) = Some (m1, m2) ->
             exists ws u k,
               size_shape (numeral_text n ++ r3) n ws u k
               /\ m1 = numeral_text n /\ m2 = captured_unit u).
  { intros n r3 Hn. destruct (span is_space r3) as [ws r4] eqn:E3.
    destruct (span_spec _ _ _ _ E3) as (-> & Hws & _).
    destruct r4 as [|c r4].
    - intros [= <- <-]. exists ws, [], 0. repeat split; assumption.
    - destruct (existsb _ _) eqn:Em; [|discriminate].
      intros [= <- <-].
      destruct (matches_unit (c :: r4) ltac:(discriminate) Em) as [k Hk].
      exists ws, (c :: r4), k. repeat split; assumption. }
  assert (Hd : digits (d :: ip)) by (split; [discriminate | assumption]).
  destruct r1 as [|c r1].
  - intros H. destruct (Htail (Whole (d :: ip)) [] Hd H) as (ws & u & k & Hs & -> & ->).
    exists (Whole (d :: ip)), ws, u, k. split; [exact Hs | split; reflexivity].
  - destruct (Z.eq_dec c 46) as [-> | Hne].
    + destruct (span is_digit r1) as [fp r3] eqn:E2.
      destruct (span_spec _ _ _ _ E2) as (-> & Hfp & _).
      destruct fp as [|f fp]; [discriminate|].
      intros H.
      destruct (Htail (Fraction (d :: ip) (f :: fp)) r3
                  ltac:(repeat split; try discriminate; assumption) H)
        as (ws & u & k & Hs & -> & ->).
      exists (Fraction (d :: ip) (f :: fp)), ws, u, k.
      split; [|split; reflexivity].
      replace ((d :: ip) ++ 46 :: (f :: fp) ++ r3)
        with (numeral_text (Fraction (d :: ip) (f :: fp)) ++ r3); [exact Hs|].
      simpl. now rewrite <- app_assoc.
    + assert (Hr : match c :: r1 with
                   | 46 :: r2 =>
                       let '(fp, r3) := span is_digit r2 in
                       match fp with
                       | [] => None
                       | _ => Some ((d :: ip) ++ 46 :: fp, r3)
                       end
                   | _ => Some (d :: ip, c :: r1)
                   end = Some (d :: ip, c :: r1)).
      { destruct c as [|c|c]; try reflexivity.
        do 6 (destruct c as [c|c|]; try reflexivity). congruence. }
      rewrite Hr. intros H.
      destruct (Htail (Whole (d :: ip)) (c :: r1) Hd H) as (ws & u & k & Hs & -> & ->).
      exists (Whole (d :: ip)), ws, u, k. split; [exact Hs | split; reflexivity].
Qed.

(** ** Binary64 rounding *)

Lemma pow2_pos (a : Z) : 0 < 2 ^ a \/ (a < 0 /\ 2 ^ a = 0).
Proof.
  destruct (Z.lt_ge_cases a 0) as [H | H].
  - right. split; [assumption | now apply Z.pow_neg_r].
  - left. now apply Z.pow_pos_nonneg.
Qed.

(** [p / q < 2^(b - a)] is kept when the exponent grows. *)
Lemma pow2_lt_mono (p q a b a' b' : Z) :
  0 <= p -> 0 < q -> 0 <= a -> 0 <= b -> 0 <= a' -> 0 <= b' ->
  b - a <= b' - a' ->
  p * 2 ^ a < q * 2 ^ b -> p * 2 ^ a' < q * 2 ^ b'.
Proof.
  intros Hp Hq Ha Hb Ha' Hb' Hle H.
  destruct (Z.lt_ge_cases (p * 2 ^ a') (q * 2 ^ b')) as [|Hge]; [assumption|exfalso].
  assert (E1 : 2 ^ (b + a') <= 2 ^ (b' + a)) by (apply Z.pow_le_mono_r; lia).
  rewrite !Z.pow_add_r in E1 by lia.
  pose proof (Z.pow_pos_nonneg 2 a ltac:(lia) Ha).
  pose proof (Z.pow_pos_nonneg 2 b ltac:(lia) Hb).
  pose proof (Z.pow_pos_nonneg 2 a' ltac:(lia) Ha').
  pose proof (Z.pow_pos_nonneg 2 b' ltac:(lia) Hb').
  assert (q * 2 ^ b' * 2 ^ a <= p * 2 ^ a' * 2 ^ a) by nia.
  assert (p * 2 ^ a * 2 ^ a' < q * 2 ^ b * 2 ^ a') by nia.
  assert (q * (2 ^ b' * 2 ^ a) < q * (2 ^ b * 2 ^ a')) by nia.
  nia.
Qed.

(** [2^(b - a) <= p / q] is kept when the exponent shrinks. *)
Lemma pow2_le_mono (p q a b a' b' : Z) :
  0 <= p -> 0 < q -> 0 <= a -> 0 <= b -> 0 <= a' -> 0 <= b' ->
  b' - a' <= b - a ->
  q * 2 ^ b <= p * 2 ^ a -> q * 2 ^ b' <= p * 2 ^ a'.
Proof.
  intros Hp Hq Ha Hb Ha' Hb' Hle H.
  destruct (Z.le_gt_cases (q * 2 ^ b') (p * 2 ^ a')) as [|Hlt]; [assumption|exfalso].
  assert (E1 : 2 ^ (b' + a) <= 2 ^ (b + a')) by (apply Z.pow_le_mono_r; lia).
  rewrite !Z.pow_add_r in E1 by lia.
  pose proof (Z.pow_pos_nonneg 2 a ltac:(lia) Ha).
  pose proof (Z.pow_pos_nonneg 2 b ltac:(lia) Hb).
  pose proof (Z.pow_pos_nonneg 2 a' ltac:(lia) Ha').
  pose proof (Z.pow_pos_nonneg 2 b' ltac:(lia) Hb').
  assert (p * 2 ^ a' * 2 ^ a < q * 2 ^ b' * 2 ^ a) by nia.
  assert (q * 2 ^ b * 2 ^ a' <= p * 2 ^ a * 2 ^ a') by nia.
  assert (q * (2 ^ b * 2 ^ a') < q * (2 ^ b' * 2 ^ a)) by nia.
  nia.
Qed.

Lemma scaled_eq (p q e : Z) :
  F64.scaled p q e = (p * 2 ^ Z.max (- e) 0, q * 2 ^ Z.max e 0).
Proof.
  unfold F64.scaled. destruct (Z.leb_spec 0 e).
  - rewrite Z.max_r, Z.max_l by lia. now rewrite Z.mul_1_r.
  - rewrite Z.max_l, Z.max_r by lia. now rewrite Z.mul_1_r.
Qed.

Lemma frac_eq (m e : Z) :
  F64.frac m e = (m * 2 ^ Z.max e 0, 2 ^ Z.max (- e) 0).
Proof.
  unfold F64.frac. destruct (Z.leb_spec 0 e).
  - now rewrite Z.max_l, Z.max_r by lia.
  - rewrite Z.max_r, Z.max_l by lia. now rewrite Z.mul_1_r.
Qed.

(** [F64.ilog2 p q] is the integer [L] with [2^L <= p / q < 2^(L + 1)]. *)
Lemma ilog2_spec (p q : Z) :
  0 < p -> 0 < q ->
  let L := F64.ilog2 p q in
  q * 2 ^ Z.max L 0 <= p * 2 ^ Z.max (- L) 0
  /\ p * 2 ^ Z.max (- (L + 1)) 0 < q * 2 ^ Z.max (L + 1) 0.
Proof.
  intros Hp Hq.
  pose proof (Z.log2_spec p Hp) as [Pl Pu].
  pose proof (Z.log2_spec q Hq) as [Ql Qu].
  pose proof (Z.log2_nonneg p) as Pa. pose proof (Z.log2_nonneg q) as Qa.
  set (a := Z.log2 p) in *. set (b := Z.log2 q) in *.
  assert (U : forall E, a - b + 1 <= E ->
                p * 2 ^ Z.max (- E) 0 < q * 2 ^ Z.max E 0).
  { intros E HE.
    apply (pow2_lt_mono p q b (a + 1) (Z.max (- E) 0) (Z.max E 0)); try lia.
    replace (a + 1) with (Z.succ a) by lia.
    pose proof (Z.pow_pos_nonneg 2 b ltac:(lia) ltac:(lia)).
    pose proof (Z.pow_pos_nonneg 2 (Z.succ a) ltac:(lia) ltac:(lia)). nia. }
  assert (Lo : forall E, E <= a - b - 1 ->
                q * 2 ^ Z.max E 0 <= p * 2 ^ Z.max (- E) 0).
  { intros E HE.
    apply (pow2_le_mono p q (b + 1) a (Z.max (- E) 0) (Z.max E 0)); try lia.
    replace (b + 1) with (Z.succ b) by lia.
    pose proof (Z.pow_pos_nonneg 2 a ltac:(lia) ltac:(lia)).
    pose proof (Z.pow_pos_nonneg 2 (Z.succ b) ltac:(lia) ltac:(lia)). nia. }
  unfold F64.ilog2. fold a b. rewrite scaled_eq. cbv zeta.
  destruct (Z.leb_spec (q * 2 ^ Z.max (a - b) 0) (p * 2 ^ Z.max (- (a - b)) 0))
    as [Hle | Hgt].
  - split; [assumption | apply U; lia].
  - split; [apply Lo; lia|].
    replace (a - b - 1 + 1) with (a - b) by lia. assumption.
Qed.

Lemma nearest_even_bounds (n d : Z) :
  0 <= n -> 0 < d ->
  n / d <= F64.nearest_even n d <= n / d + 1.
Proof.
  intros Hn Hd. unfold F64.nearest_even.
  destruct (_ <? _); [lia|]. destruct (_ <? _); [lia|].
  destruct (Z.even _); lia.
Qed.

Lemma nearest_even_exact (m d : Z) : 0 < d -> F64.nearest_even (m * d) d = m.
Proof.
  intros Hd. unfold F64.nearest_even.
  rewrite Z.div_mul, Z.mod_mul by lia.
  destruct (Z.ltb_spec (2 * 0) d); [reflexivity | lia].
Qed.

(** The rounded significand is within half a unit of [n / d]. *)
Lemma nearest_even_half (n d : Z) :
  0 <= n -> 0 < d -> 2 * Z.abs (F64.nearest_even n d * d - n) <= d.
Proof.
  intros Hn Hd. unfold F64.nearest_even.
  pose proof (Z.div_mod n d ltac:(lia)) as E.
  pose proof (Z.mod_pos_bound n d Hd) as B.
  destruct (Z.ltb_spec (2 * (n mod d)) d); [nia|].
  destruct (Z.ltb_spec d (2 * (n mod d))); [nia|].
  destruct (Z.even (n / d)); nia.
Qed.

(** 0.1 is the double 0x1.999999999999ap-4, the integers from 2^53 lose
    their last bit to the even neighbour, and [0.29 * 100] is below 29. *)
Example round_samples :
  F64.round 1 10 = F64.Fin 7205759403792794 (-56)
  /\ F64.round (2 ^ 53 + 1) 1 = F64.Fin (2 ^ 52) 1
  /\ F64.round (2 ^ 53 + 3) 1 = F64.Fin (2 ^ 52 + 2) 1
  /\ Math_floor (F64.mul (F64.div (F64.of_Z 29) (F64.of_Z 100)) (F64.of_Z 100))
     = Int 28.
Proof. repeat split; vm_compute; reflexivity. Qed.

(** What [F64.round] returns is a binary64 number: a significand below
    [2^53] and an exponent from [emin]. *)
Lemma round_wf (p q m e : Z) :
  0 <= p -> 0 < q -> F64.round p q = F64.Fin m e ->
  0 <= m < 2 ^ 53 /\ F64.emin <= e.
Proof.
  intros Hp Hq. unfold F64.round.
  destruct (Z.eqb_spec p 0) as [-> | Hp0].
  { intros [= <- <-]. unfold F64.emin. lia. }
  pose proof (ilog2_spec p q ltac:(lia) Hq) as [_ Hu]. cbv zeta in Hu.
  set (L := F64.ilog2 p q) in *.
  set (e0 := Z.max (L - 52) F64.emin).
  rewrite scaled_eq.
  set (n := p * 2 ^ Z.max (- e0) 0). set (d := q * 2 ^ Z.max e0 0).
  assert (Hd : 0 < d).
  { unfold d. pose proof (Z.pow_pos_nonneg 2 (Z.max e0 0) ltac:(lia) ltac:(lia)). nia. }
  assert (Hn : 0 <= n).
  { unfold n. pose proof (Z.pow_pos_nonneg 2 (Z.max (- e0) 0) ltac:(lia) ltac:(lia)). nia. }
  assert (Hlt : n < d * 2 ^ 53).
  { unfold n, d. rewrite <- Z.mul_assoc, <- Z.pow_add_r by lia.
    apply (pow2_lt_mono p q (Z.max (- (L + 1)) 0) (Z.max (L + 1) 0)); lia. }
  pose proof (Z.div_lt_upper_bound n d (2 ^ 53) Hd Hlt) as Hq53.
  pose proof (Z.div_pos n d Hn Hd) as Hq0.
  pose proof (nearest_even_bounds n d Hn Hd) as Hm.
  set (m0 := F64.nearest_even n d) in *.
  destruct (Z.eqb_spec m0 (2 ^ 53)) as [E | E].
  - destruct (_ <? _); [|discriminate]. intros [= <- <-].
    unfold e0, F64.emin. lia.
  - destruct (_ <? _); [|discriminate]. intros [= <- <-].
    unfold e0, F64.emin. lia.
Qed.

(** A number [m * 2^(a - b)] that binary64 represents is rounded to
    itself. *)
Lemma round_dyadic (m a b : Z) :
  0 < m < 2 ^ 53 -> 0 <= a -> 0 <= b -> F64.emin <= a - b ->
  F64.round (m * 2 ^ a) (2 ^ b)
  = let e := Z.max (Z.log2 m + (a - b) - 52) F64.emin in
    let M := m * 2 ^ (a - b - e) in
    if M * 2 ^ Z.max e 0 <? 2 ^ 1024 then F64.Fin M e else F64.PInf.
Proof.
  intros Hm Ha Hb Hab.
  pose proof (Z.pow_pos_nonneg 2 a ltac:(lia) Ha) as Pa.
  pose proof (Z.pow_pos_nonneg 2 b ltac:(lia) Hb) as Pb.
  pose proof (Z.log2_spec m ltac:(lia)) as [Ml Mu].
  pose proof (Z.log2_nonneg m) as Mn.
  assert (M52 : Z.log2 m <= 52).
  { destruct (Z.le_gt_cases (Z.log2 m) 52) as [|H]; [assumption|exfalso].
    assert (2 ^ 53 <= 2 ^ Z.log2 m) by (apply Z.pow_le_mono_r; lia). lia. }
  assert (HL : F64.ilog2 (m * 2 ^ a) (2 ^ b) = Z.log2 m + (a - b)).
  { unfold F64.ilog2. rewrite Z.log2_mul_pow2, Z.log2_pow2 by lia.
    replace (a + Z.log2 m - b) with (Z.log2 m + (a - b)) by lia.
    set (l := Z.log2 m + (a - b)).
    rewrite scaled_eq.
    destruct (Z.leb_spec (2 ^ b * 2 ^ Z.max l 0) (m * 2 ^ a * 2 ^ Z.max (- l) 0))
      as [|Hgt]; [reflexivity|exfalso].
    rewrite <- Z.pow_add_r in Hgt by lia.
    rewrite <- Z.mul_assoc, <- Z.pow_add_r in Hgt by lia.
    replace (b + Z.max l 0) with (Z.log2 m + (a + Z.max (- l) 0)) in Hgt by (unfold l; lia).
    rewrite (Z.pow_add_r 2 (Z.log2 m)) in Hgt by lia.
    pose proof (Z.pow_pos_nonneg 2 (a + Z.max (- l) 0) ltac:(lia) ltac:(lia)). nia. }
  unfold F64.round.
  destruct (Z.eqb_spec (m * 2 ^ a) 0) as [E0 | _]; [nia|].
  rewrite HL. cbv zeta.
  set (e := Z.max (Z.log2 m + (a - b) - 52) F64.emin).
  assert (He : e <= a - b) by (unfold e; lia).
  rewrite scaled_eq.
  set (M := m * 2 ^ (a - b - e)).
  assert (Hn : m * 2 ^ a * 2 ^ Z.max (- e) 0 = M * (2 ^ b * 2 ^ Z.max e 0)).
  { unfold M. rewrite <- !Z.mul_assoc. f_equal.
    rewrite <- !Z.pow_add_r by lia. f_equal. lia. }
  rewrite Hn, nearest_even_exact
    by (pose proof (Z.pow_pos_nonneg 2 (Z.max e 0) ltac:(lia) ltac:(lia)); nia).
  assert (HM : M < 2 ^ 53).
  { unfold M.
    assert (2 ^ (a - b - e) <= 2 ^ (52 - Z.log2 m)) by (apply Z.pow_le_mono_r; unfold e; lia).
    assert (2 ^ Z.succ (Z.log2 m) * 2 ^ (52 - Z.log2 m) = 2 ^ 53).
    { rewrite <- Z.pow_add_r by lia. f_equal. lia. }
    pose proof (Z.pow_pos_nonneg 2 (a - b - e) ltac:(lia) ltac:(lia)).
    pose proof (Z.pow_pos_nonneg 2 (52 - Z.log2 m) ltac:(lia) ltac:(lia)).
    nia. }
  destruct (Z.eqb_spec M (2 ^ 53)) as [E | _]; [lia | reflexivity].
Qed.

Lemma Math_floor_Fin (m e : Z) : Math_floor (F64.Fin m e) = Int (Z.shiftl m e).
Proof.
  unfold Math_floor, F64.frac. destruct (Z.leb_spec 0 e).
  - now rewrite Z.div_1_r, Z.shiftl_mul_pow2.
  - now rewrite Z.shiftl_div_pow2 by lia.
Qed.

Lemma shiftl_le (m s : Z) : 0 <= m -> Z.shiftl m s <= Z.shiftl m (Z.max s 0).
Proof.
  intros Hm. destruct (Z.le_gt_cases 0 s).
  - now rewrite Z.max_l.
  - rewrite Z.max_r by lia. rewrite Z.shiftl_div_pow2, Z.shiftl_0_r by lia.
    apply Z.div_le_upper_bound; [apply Z.pow_pos_nonneg; lia|].
    pose proof (Z.pow_pos_nonneg 2 (- s) ltac:(lia) ltac:(lia)). nia.
Qed.

Lemma of_Z_pow2 (j : Z) :
  0 <= j < 1024 -> F64.of_Z (2 ^ j) = F64.Fin (2 ^ 52) (j - 52).
Proof.
  intros Hj. unfold F64.of_Z.
  replace (2 ^ j) with (1 * 2 ^ j) by lia.
  change 1 with (2 ^ 0) at 2.
  rewrite round_dyadic; try lia; [|unfold F64.emin; lia].
  cbv zeta. change (Z.log2 1) with 0.
  replace (Z.max (0 + (j - 0) - 52) F64.emin) with (j - 52) by (unfold F64.emin; lia).
  replace (j - 0 - (j - 52)) with 52 by lia. rewrite Z.mul_1_l.
  rewrite <- Z.pow_add_r by lia.
  destruct (Z.ltb_spec (2 ^ (52 + Z.max (j - 52) 0)) (2 ^ 1024)) as [|Hge];
    [reflexivity|exfalso].
  assert (2 ^ (52 + Z.max (j - 52) 0) < 2 ^ 1024) by (apply Z.pow_lt_mono_r; lia).
  lia.
Qed.

(** The product with a power of two is exact: only [parseFloat] rounds. *)
Lemma mul_pow2_floor (m e j : Z) :
  0 <= m < 2 ^ 53 -> F64.emin <= e -> 0 <= j < 1024 ->
  Math_floor (F64.mul (F64.Fin m e) (F64.of_Z (2 ^ j)))
  = if Z.shiftl m (e + j) <? 2 ^ 1024 then Int (Z.shiftl m (e + j))
    else PosInfinity.
Proof.
  intros Hm He Hj. rewrite of_Z_pow2 by assumption.
  unfold F64.mul. rewrite !frac_eq.
  destruct (Z.eq_dec m 0) as [-> | Hm0].
  { rewrite !Z.mul_0_l, Z.shiftl_0_l. reflexivity. }
  set (A := Z.max e 0 + (52 + Z.max (j - 52) 0)).
  set (B := Z.max (- e) 0 + Z.max (- (j - 52)) 0).
  replace (m * 2 ^ Z.max e 0 * (2 ^ 52 * 2 ^ Z.max (j - 52) 0)) with (m * 2 ^ A)
    by (unfold A; rewrite !Z.pow_add_r by lia; ring).
  replace (2 ^ Z.max (- e) 0 * 2 ^ Z.max (- (j - 52)) 0) with (2 ^ B)
    by (unfold B; now rewrite Z.pow_add_r by lia).
  rewrite round_dyadic by (unfold A, B, F64.emin in *; lia).
  cbv zeta. replace (A - B) with (e + j) by (unfold A, B; lia).
  set (e' := Z.max (Z.log2 m + (e + j) - 52) F64.emin).
  pose proof (Z.log2_spec m ltac:(lia)) as [Ml Mu].
  pose proof (Z.log2_nonneg m) as Mn.
  assert (M52 : Z.log2 m <= 52).
  { destruct (Z.le_gt_cases (Z.log2 m) 52) as [|H]; [assumption|exfalso].
    assert (2 ^ 53 <= 2 ^ Z.log2 m) by (apply Z.pow_le_mono_r; lia). lia. }
  assert (He' : e' <= e + j) by (unfold e'; lia).
  set (M := m * 2 ^ (e + j - e')).
  assert (HM : M = Z.shiftl m (e + j - e')) by (now rewrite Z.shiftl_mul_pow2 by lia).
  assert (Hs : Z.shiftl M e' = Z.shiftl m (e + j)).
  { rewrite HM, Z.shiftl_shiftl by lia. f_equal. lia. }
  assert (Hp : M * 2 ^ Z.max e' 0 = Z.shiftl M (Z.max e' 0))
    by (now rewrite Z.shiftl_mul_pow2 by lia).
  assert (M0 : 0 <= M).
  { unfold M. pose proof (Z.pow_pos_nonneg 2 (e + j - e') ltac:(lia) ltac:(lia)). nia. }
  assert (M53 : M < 2 ^ 53).
  { unfold M.
    assert (2 ^ (e + j - e') <= 2 ^ (52 - Z.log2 m))
      by (apply Z.pow_le_mono_r; unfold e'; lia).
    assert (2 ^ Z.succ (Z.log2 m) * 2 ^ (52 - Z.log2 m) = 2 ^ 53).
    { rewrite <- Z.pow_add_r by lia. f_equal. lia. }
    pose proof (Z.pow_pos_nonneg 2 (e + j - e') ltac:(lia) ltac:(lia)).
    pose proof (Z.pow_pos_nonneg 2 (52 - Z.log2 m) ltac:(lia) ltac:(lia)).
    nia. }
  assert (Hfin : (M * 2 ^ Z.max e' 0 <? 2 ^ 1024) = (Z.shiftl m (e + j) <? 2 ^ 1024)).
  { rewrite Hp, <- Hs. destruct (Z.le_gt_cases 0 e') as [Hpos | Hneg].
    - now rewrite Z.max_l.
    - rewrite Z.max_r, Z.shiftl_0_r by lia.
      pose proof (shiftl_le M e' M0) as Hle.
      rewrite Z.max_r, Z.shiftl_0_r in Hle by lia.
      assert (2 ^ 53 < 2 ^ 1024) by (apply Z.pow_lt_mono_r; lia).
      destruct (Z.ltb_spec M (2 ^ 1024)), (Z.ltb_spec (Z.shiftl M e') (2 ^ 1024));
        try reflexivity; lia. }
  rewrite Hfin. destruct (Z.shiftl m (e + j) <? 2 ^ 1024); [|reflexivity].
  now rewrite Math_floor_Fin, Hs.
Qed.

(** An integer below [2^53] is a binary64 number. *)
Lemma round_integer (n : Z) :
  0 <= n < 2 ^ 53 ->
  exists m e, F64.round n 1 = F64.Fin m e
    /\ 0 <= m < 2 ^ 53 /\ F64.emin <= e /\ 0 <= - e
    /\ m = n * 2 ^ (- e).
Proof.
  intros Hn. destruct (Z.eq_dec n 0) as [-> | Hn0].
  { exists 0, 0. unfold F64.emin. repeat split; try reflexivity; lia. }
  pose proof (Z.log2_spec n ltac:(lia)) as [Ml Mu].
  pose proof (Z.log2_nonneg n) as Mn.
  assert (M52 : Z.log2 n <= 52).
  { destruct (Z.le_gt_cases (Z.log2 n) 52) as [|H]; [assumption|exfalso].
    assert (2 ^ 53 <= 2 ^ Z.log2 n) by (apply Z.pow_le_mono_r; lia). lia. }
  pose proof (round_dyadic n 0 0 ltac:(lia) ltac:(lia) ltac:(lia)
                ltac:(unfold F64.emin; lia)) as R.
  rewrite Z.pow_0_r, Z.mul_1_r in R. cbv zeta in R.
  replace (Z.max (Z.log2 n + (0 - 0) - 52) F64.emin) with (Z.log2 n - 52) in R
    by (unfold F64.emin; lia).
  replace (0 - 0 - (Z.log2 n - 52)) with (52 - Z.log2 n) in R by lia.
  rewrite Z.max_r, Z.mul_1_r in R by lia.
  assert (H53 : n * 2 ^ (52 - Z.log2 n) < 2 ^ 53).
  { assert (2 ^ Z.succ (Z.log2 n) * 2 ^ (52 - Z.log2 n) = 2 ^ 53).
    { rewrite <- Z.pow_add_r by lia. f_equal. lia. }
    pose proof (Z.pow_pos_nonneg 2 (52 - Z.log2 n) ltac:(lia) ltac:(lia)). nia. }
  assert (2 ^ 53 < 2 ^ 1024) by (apply Z.pow_lt_mono_r; lia).
  destruct (Z.ltb_spec (n * 2 ^ (52 - Z.log2 n)) (2 ^ 1024)); [|lia].
  exists (n * 2 ^ (52 - Z.log2 n)), (Z.log2 n - 52).
  split; [assumption|].
  pose proof (Z.pow_pos_nonneg 2 (52 - Z.log2 n) ltac:(lia) ltac:(lia)).
  unfold F64.emin. repeat split; try lia; try nia.
  f_equal. f_equal. lia.
Qed.

(** ** parseSize (C4) *)

Lemma digits_value_nonneg (ds : jsstring) :
  Forall (fun c => is_digit c = true) ds -> 0 <= digits_value ds.
Proof.
  unfold digits_value. intros H.
  assert (G : forall acc, 0 <= acc ->
            0 <= fold_left (fun acc d => 10 * acc + (d - 48)) ds acc).
  { induction H as [|d ds Hd _ IH]; intros acc Hacc; simpl; [assumption|].
    apply IH. unfold is_digit in Hd. lia. }
  now apply G.
Qed.

Lemma forallb_digits (ds : jsstring) :
  Forall (fun c => is_digit c = true) ds -> forallb is_digit ds = true.
Proof. induction 1 as [|d ds Hd _ IH]; simpl; [reflexivity | now rewrite Hd]. Qed.

(** [parseFloat] of a numeral is the binary64 number nearest to its
    decimal value. *)
Lemma parseFloat_numeral (n : numeral) :
  numeral_ok n ->
  parseFloat (numeral_text n)
  = F64.round (fst (numeral_value n)) (snd (numeral_value n)).
Proof.
  unfold parseFloat. destruct n as [ip | ip fp]; simpl.
  - intros [Hne Hd].
    rewrite <- (app_nil_r ip) at 1. rewrite span_app by (assumption || exact I).
    destruct ip; [congruence | reflexivity].
  - intros [[Hne Hd] [Hnf Hdf]].
    rewrite span_app by (assumption || reflexivity).
    destruct ip as [|d ip]; [congruence|].
    rewrite forallb_digits by assumption.
    rewrite bool_decide_eq_false_2 by assumption. reflexivity.
Qed.

Lemma multiplier_unit (u : jsstring) (k : Z) :
  unit_exponent u = Some k ->
  multiplier (toUpperCase (default (str "B") (captured_unit u)))
  = F64.of_Z (2 ^ (10 * k)) /\ 0 <= k <= 4.
Proof.
  intros H. destruct (unit_exponent_cases u k H) as [[-> ->] | [Hne Hc]].
  - split; [reflexivity | lia].
  - destruct u as [|c u]; [congruence|]. cbn [captured_unit default from_option id].
    destruct Hc as [[-> ->] | [[-> ->] | [[-> ->] | [[-> ->] | [-> ->]]]]];
      (split; [reflexivity | lia]).
Qed.

Lemma numeral_value_sign (n : numeral) :
  numeral_ok n -> 0 <= fst (numeral_value n) /\ 0 < snd (numeral_value n).
Proof.
  destruct n as [ip | ip fp]; simpl.
  - intros [_ Hd]. split; [now apply digits_value_nonneg | lia].
  - intros [[_ Hd] [_ Hdf]]. split.
    + apply digits_value_nonneg. now apply Forall_app.
    + apply Z.pow_pos_nonneg; lia.
Qed.

Lemma parseSize_shape (s : jsstring) (n : numeral) (ws u : jsstring) (k : Z) :
  size_shape s n ws u k ->
  parseSize s
  = Ok (scaled_floor (F64.round (fst (numeral_value n)) (snd (numeral_value n))) k).
Proof.
  intros Hs. unfold parseSize. rewrite (size_match_accepts s n ws u k Hs).
  destruct Hs as (_ & Hn & _ & Hu).
  rewrite (parseFloat_numeral n Hn).
  destruct (multiplier_unit u k Hu) as [-> Hk].
  destruct (numeral_value_sign n Hn) as [Hp Hq].
  f_equal.
  destruct (F64.round _ _) as [m e | |] eqn:Er.
  - destruct (round_wf _ _ _ _ Hp Hq Er) as [Hm He].
    now rewrite mul_pow2_floor by lia.
  - rewrite of_Z_pow2 by lia. reflexivity.
  - reflexivity.
Qed.

(** A whole number below [2^53] is parsed exactly. *)
Lemma parseSize_whole (s ip ws u : jsstring) (k : Z) :
  size_shape s (Whole ip) ws u k -> digits_value ip < 2 ^ 53 ->
  parseSize s = Ok (Int (digits_value ip * 1024 ^ k)).
Proof.
  intros Hs Hlt. rewrite (parseSize_shape s (Whole ip) ws u k Hs).
  destruct Hs as (_ & Hn & _ & Hu).
  destruct (multiplier_unit u k Hu) as [_ Hk].
  destruct (numeral_value_sign _ Hn) as [Hp _]. simpl in *.
  set (N := digits_value ip) in *.
  destruct (round_integer N ltac:(lia)) as (m & e & -> & Hm & He & He0 & ->).
  unfold scaled_floor.
  assert (E : Z.shiftl (N * 2 ^ (- e)) (e + 10 * k) = N * 1024 ^ k).
  { rewrite <- Z.shiftl_mul_pow2 by lia.
    rewrite Z.shiftl_shiftl by lia.
    replace (- e + (e + 10 * k)) with (10 * k) by lia.
    rewrite Z.shiftl_mul_pow2 by lia.
    change 1024 with (2 ^ 10). now rewrite <- Z.pow_mul_r by lia. }
  rewrite E.
  assert (N * 1024 ^ k < 2 ^ 1024).
  { change 1024 with (2 ^ 10) at 1. rewrite <- Z.pow_mul_r by lia.
    assert (2 ^ (10 * k) <= 2 ^ 40) by (apply Z.pow_le_mono_r; lia).
    assert (2 ^ 53 * 2 ^ 40 < 2 ^ 1024).
    { rewrite <- Z.pow_add_r by lia. apply Z.pow_lt_mono_r; lia. }
    pose proof (Z.pow_pos_nonneg 2 (10 * k) ltac:(lia) ltac:(lia)).
    pose proof (Z.pow_pos_nonneg 2 53 ltac:(lia) ltac:(lia)). nia. }
  destruct (Z.ltb_spec (N * 1024 ^ k) (2 ^ 1024)); [reflexivity | lia].
Qed.

(** Only strings of the shape are parsed. *)
Lemma parseSize_sound (s : jsstring) (r : number) :
  parseSize s = Ok r -> exists n ws u k, size_shape s n ws u k.
Proof.
  unfold parseSize.
  destruct (size_match s) as [[m1 m2]|] eqn:Em; [|discriminate].
  intros _. destruct (size_match_sound s m1 m2 Em) as (n & ws & u & k & Hs & _).
  now exists n, ws, u, k.
Qed.

(** No size is negative. *)
Lemma parseSize_nonneg (s : jsstring) (z : Z) :
  parseSize s = Ok (Int z) -> 0 <= z.
Proof.
  intros H. destruct (parseSize_sound s _ H) as (n & ws & u & k & Hs).
  rewrite (parseSize_shape s n ws u k Hs) in H.
  destruct Hs as (_ & Hn & _ & _).
  destruct (numeral_value_sign n Hn) as [Hp Hq].
  destruct (F64.round _ _) as [m e | |] eqn:Er; simpl in H; try discriminate.
  destruct (round_wf _ _ _ _ Hp Hq Er) as [Hm _].
  destruct (_ <? _); [|discriminate]. injection H as <-.
  apply Z.shiftl_nonneg. lia.
Qed.

(** C4 as stated fails twice. The pattern takes any run of white space
    before the unit, so "1  KB" (two spaces) is no error although it is
    not of the shape number, optional space, unit. And the number is read as
    a binary64 value: "0.99999999999999999999KB" gives 1024, because
    [parseFloat] rounds the numeral to 1, while the floor of its decimal
    value times 1024 is 1023. *)
Lemma parseSize_counterexample :
  (parseSize (str "1  KB") = Ok (Int 1024) /\ ~ one_space_shape (str "1  KB"))
  /\ (parseSize (str "0.99999999999999999999KB") = Ok (Int 1024)
      /\ numeral_value (Fraction (str "0") (str "99999999999999999999"))
         = (99999999999999999999, 10 ^ 20)
      /\ (99999999999999999999 * 1024) / 10 ^ 20 = 1023).
Proof.
  split; [split|split; [|split]]; try (vm_compute; reflexivity).
  intros (n & sp & u & k & Hs & Hn & Hsp & Hu).
  assert (Hshape : size_shape (str "1  KB") n sp u k).
  { repeat split; try assumption.
    destruct Hsp as [-> | ->]; repeat constructor. }
  apply size_match_accepts in Hshape.
  assert (Hm : size_match (str "1  KB") = Some (str "1", Some (str "KB")))
    by (vm_compute; reflexivity).
  rewrite Hm in Hshape. injection Hshape as Hn' Hu'.
  destruct u as [|c u]; [discriminate|]. simpl in Hu'. injection Hu' as <- <-.
  rewrite <- Hn' in Hs.
  destruct Hsp as [-> | ->]; discriminate.
Qed.

(** C4, as the code has it. [parseSize] accepts exactly the strings made
    of a numeral ([digits] or [digits.digits]), any run of white space
    (none, one or several characters of the class [\s]) and an optional
    unit B, KB, MB, GB or TB in either case; every other string throws the
    invalid-size-format error. For an accepted string the result is
    floor(d * 1024^k), where d is the binary64 number nearest to the
    numeral and k the power of the unit (0 without unit), and infinity if
    that product is 2^1024 or more. A whole number below 2^53 is binary64
    itself, so then the result is exactly number * 1024^k. In particular
    "100MB" gives 100 * 1024 * 1024, "1.5GB" gives floor(1.5 * 1024^3),
    "500" gives 500 and "bogus" is an error. *)
Theorem parseSize_spec :
  (forall s n ws u k,
      size_shape s n ws u k ->
      parseSize s
      = Ok (scaled_floor
              (F64.round (fst (numeral_value n)) (snd (numeral_value n))) k))
  /\ (forall s,
        (forall n ws u k, ~ size_shape s n ws u k) ->
        parseSize s = Err (InvalidSizeFormat s))
  /\ (forall s r,
        parseSize s = Ok r -> exists n ws u k, size_shape s n ws u k)
  /\ (forall s ip ws u k,
        size_shape s (Whole ip) ws u k -> digits_value ip < 2 ^ 53 ->
        parseSize s = Ok (Int (digits_value ip * 1024 ^ k)))
  /\ parseSize (str "100MB") = Ok (Int (100 * 1024 * 1024))
  /\ parseSize (str "1.5GB") = Ok (Int (3 * 1024 ^ 3 / 2))
  /\ parseSize (str "500") = Ok (Int 500)
  /\ parseSize (str "bogus") = Err (InvalidSizeFormat (str "bogus")).
Proof.
  split; [exact parseSize_shape|]. split; [|split; [exact parseSize_sound|]].
  - intros s Hno. destruct (parseSize s) as [r | e] eqn:Ep.
    + destruct (parseSize_sound s r Ep) as (n & ws & u & k & Hs).
      now destruct (Hno n ws u k).
    + unfold parseSize in Ep. destruct (size_match s) as [[m1 m2]|]; [discriminate|].
      now symmetry.
  - split; [exact parseSize_whole|].
    repeat split; vm_compute; reflexivity.
Qed.

Lemma parseSize_spec_witness :
  size_shape (str "12 kb") (Whole (str "12")) (str " ") (str "kb") 1
  /\ digits_value (str "12") < 2 ^ 53
  /\ parseSize (str "12 kb") = Ok (Int (digits_value (str "12") * 1024 ^ 1)).
Proof.
  assert (Hs : size_shape (str "12 kb") (Whole (str "12")) (str " ") (str "kb") 1).
  { split; [reflexivity|]. split; [|split; [|reflexivity]].
    - split; [discriminate | repeat constructor].
    - repeat constructor. }
  assert (Hlt : digits_value (str "12") < 2 ^ 53) by reflexivity.
  split; [exact Hs|]. split; [exact Hlt|].
  destruct parseSize_spec as (_ & _ & _ & Hwhole & _).
  exact (Hwhole _ _ _ _ _ Hs Hlt).
Defined.

(** ** Arithmetic of chunk counts *)

Lemma ceil_div_cases (a b : Z) :
  0 < b -> ceil_div a b = a / b + (if a mod b =? 0 then 0 else 1).
Proof.
  intros Hb. unfold ceil_div.
  destruct (Z.eqb_spec (a mod b) 0) as [Hz | Hnz].
  - rewrite Z.div_opp_l_z by lia. lia.
  - rewrite Z.div_opp_l_nz by lia. lia.
Qed.

Lemma ceil_div_nonneg (a b : Z) : 0 <= a -> 0 < b -> 0 <= ceil_div a b.
Proof.
  intros Ha Hb. rewrite ceil_div_cases by lia.
  pose proof (Z.div_pos a b Ha Hb). destruct (a mod b =? 0); lia.
Qed.

Lemma ceil_div_0 (b : Z) : ceil_div 0 b = 0.
Proof. unfold ceil_div. simpl. now rewrite Zdiv_0_l. Qed.

Lemma ceil_div_step (a b : Z) :
  0 < b -> ceil_div (a + b) b = ceil_div a b + 1.
Proof.
  intros Hb. rewrite !ceil_div_cases by lia.
  replace (a + b) with (a + 1 * b) by lia.
  rewrite Z.div_add, Z.mod_add by lia. lia.
Qed.

Lemma ceil_div_small (a b : Z) : 0 < a <= b -> ceil_div a b = 1.
Proof.
  intros H. rewrite ceil_div_cases by lia.
  destruct (Z.eq_dec a b) as [-> | Hne].
  - rewrite Z.div_same, Z.mod_same by lia. reflexivity.
  - rewrite Z.div_small, Z.mod_small by lia.
    destruct (Z.eqb_spec a 0); lia.
Qed.

Lemma ceil_div_covers (a b : Z) : 0 < b -> a <= ceil_div a b * b.
Proof.
  intros Hb. rewrite ceil_div_cases by lia.
  pose proof (Z.div_mod a b ltac:(lia)) as E.
  pose proof (Z.mod_pos_bound a b Hb).
  destruct (Z.eqb_spec (a mod b) 0); nia.
Qed.

(** ** The chunks of a run *)

Section Expected.
Context {A : Type}.
Implicit Types (chunk : list A) (r : Z).

Lemma expected_chunks_0 chunk : expected_chunks 0 chunk = [].
Proof.
  unfold expected_chunks. now rewrite Zdiv_0_l, Zmod_0_l.
Qed.

Lemma expected_chunks_full chunk r :
  0 < len chunk <= r ->
  expected_chunks r chunk = chunk :: expected_chunks (r - len chunk) chunk.
Proof.
  intros H. unfold expected_chunks. cbv zeta.
  set (c := len chunk) in *.
  assert (D : r / c = (r - c) / c + 1).
  { replace r with ((r - c) + 1 * c) at 1 by lia. now rewrite Z.div_add by lia. }
  assert (R : r mod c = (r - c) mod c).
  { replace r with ((r - c) + 1 * c) at 1 by lia. now rewrite Z.mod_add by lia. }
  pose proof (Z.div_pos (r - c) c ltac:(lia) ltac:(lia)).
  rewrite D, R.
  replace (Z.to_nat ((r - c) / c + 1)) with (S (Z.to_nat ((r - c) / c))) by lia.
  reflexivity.
Qed.

Lemma expected_chunks_rest chunk r :
  0 < r < len chunk ->
  expected_chunks r chunk = [take (Z.to_nat r) chunk].
Proof.
  intros H. unfold expected_chunks. cbv zeta.
  rewrite Z.div_small, Z.mod_small by lia.
  destruct (Z.eqb_spec r 0); [lia | reflexivity].
Qed.

Lemma slice0_take chunk e :
  0 <= e <= len chunk -> slice0 chunk e = take (Z.to_nat e) chunk.
Proof.
  intros H. unfold slice0. fold (len chunk).
  destruct (Z.ltb_spec e 0); [lia|]. now rewrite Z.min_l by lia.
Qed.

Lemma slice0_all chunk : slice0 chunk (len chunk) = chunk.
Proof.
  rewrite slice0_take by (unfold len; lia).
  apply take_ge. unfold len. lia.
Qed.


(** The total length. *)
Lemma expected_chunks_total chunk r :
  0 <= r -> 0 < len chunk -> len (concat (expected_chunks r chunk)) = r.
Proof.
  intros Hr Hc. unfold expected_chunks. cbv zeta.
  set (c := len chunk) in *.
  pose proof (Z.div_mod r c ltac:(lia)) as E.
  pose proof (Z.mod_pos_bound r c Hc) as B.
  pose proof (Z.div_pos r c Hr Hc) as P.
  unfold len. rewrite concat_app, length_app.
  assert (L : forall n, length (concat (replicate n chunk)) = (n * length chunk)%nat).
  { induction n as [|n IH]; simpl; [reflexivity|].
    rewrite length_app, IH. reflexivity. }
  rewrite L.
  destruct (Z.eqb_spec (r mod c) 0) as [Hz | Hnz]; simpl.
  - unfold c, len in *. nia.
  - rewrite app_nil_r, length_take. unfold c, len in *. nia.
Qed.

End Expected.

Section ExpectedContent.
Context {A : Type}.
Implicit Types (chunk : list A) (r : Z) (i n : nat).

Lemma concat_replicate_length n chunk :
  length (concat (replicate n chunk)) = (n * length chunk)%nat.
Proof.
  induction n as [|n IH]; simpl; [reflexivity|].
  now rewrite length_app, IH.
Qed.

(** The repeated chunk is periodic. *)
Lemma concat_replicate_lookup n chunk i :
  (i < n * length chunk)%nat ->
  concat (replicate n chunk) !! i = chunk !! (i mod length chunk)%nat.
Proof.
  revert i. induction n as [|n IH]; intros i Hi; simpl in *; [lia|].
  destruct (Nat.lt_ge_cases i (length chunk)) as [Hlt | Hge].
  - rewrite lookup_app_l by assumption. now rewrite Nat.mod_small.
  - rewrite lookup_app_r by assumption.
    rewrite IH by lia. f_equal.
    replace i with ((i - length chunk) + 1 * length chunk)%nat at 2 by lia.
    now rewrite Nat.Div0.mod_add.
Qed.





End ExpectedContent.

(** ** Pulling a generator to its end *)

Section Chunked.
Context {A G : Type} `{R : Readable G (list A)}.
Variables (target : G -> number) (produced : G -> Z) (chunk_of : G -> list A).

(** [_read] is the shared body applied to the three fields, and it only
    advances the counter. *)
Hypothesis read_spec : forall g,
  match next_data (target g) (produced g) (chunk_of g) with
  | None => _read g = (g, None)
  | Some data =>
      exists g', _read g = (g', Some data)
        /\ target g' = target g
        /\ produced g' = produced g + len data
        /\ chunk_of g' = chunk_of g
  end.

Lemma pull_all_expected (t : Z) (fuel : nat) : forall g,
  target g = Int t -> 0 < len (chunk_of g) -> produced g <= t ->
  (Z.to_nat (ceil_div (t - produced g) (len (chunk_of g))) < fuel)%nat ->
  pull_all fuel g = Some (expected_chunks (t - produced g) (chunk_of g)).
Proof using read_spec.
  induction fuel as [|fuel IH]; intros g Ht Hc Hp Hf; [lia|].
  simpl. pose proof (read_spec g) as Hr. rewrite Ht in Hr.
  unfold next_data in Hr. fold (len (chunk_of g)) in Hr.
  destruct (Z.leb_spec t (produced g)) as [Hend | Hmore].
  - rewrite Hr. replace (t - produced g) with 0 by lia.
    now rewrite expected_chunks_0.
  - destruct Hr as (g' & -> & Ht' & Hp' & Hc').
    set (c := len (chunk_of g)) in *.
    set (r := t - produced g) in *.
    destruct (Z.le_gt_cases c r) as [Hfull | Hrest].
    + rewrite Z.min_r in Hp' by lia.
      rewrite Z.min_r by lia.
      unfold c in Hp' |- *. rewrite slice0_all in Hp' |- *. fold c in Hp'.
      rewrite (IH g'); rewrite ?Hc', ?Hp', ?Ht'; try (fold c; lia); try reflexivity.
      * rewrite (expected_chunks_full (chunk_of g) r) by (fold c; lia).
        fold c. do 3 f_equal. unfold r. lia.
      * fold c. replace (t - (produced g + c)) with (r - c) by (unfold r; lia).
        replace r with ((r - c) + c) in Hf by lia.
        rewrite ceil_div_step in Hf by lia.
        pose proof (ceil_div_nonneg (r - c) c ltac:(lia) ltac:(lia)). lia.
    + rewrite Z.min_l in Hp' by lia.
      rewrite Z.min_l by lia.
      rewrite slice0_take in Hp' |- * by (fold c; lia).
      assert (Hl : len (take (Z.to_nat r) (chunk_of g)) = r).
      { unfold len. rewrite length_take. unfold c, len in *. lia. }
      rewrite Hl in Hp'.
      rewrite (IH g'); rewrite ?Hc', ?Hp', ?Ht'; try (fold c; lia); try reflexivity.
      * rewrite (expected_chunks_rest (chunk_of g) r) by (fold c; lia).
        replace (t - (produced g + r)) with 0 by (unfold r; lia).
        now rewrite expected_chunks_0.
      * fold c. replace (t - (produced g + r)) with 0 by (unfold r; lia).
        rewrite ceil_div_0. rewrite ceil_div_small in Hf by lia. lia.
Qed.

End Chunked.



Lemma binary_read_spec (g : BinaryDataGenerator.t) :
  match next_data (BinaryDataGenerator.targetSize g) (BinaryDataGenerator.generated g)
          (BinaryDataGenerator.chunk g) with
  | None => _read g = (g, None)
  | Some data =>
      exists g', _read g = (g', Some data)
        /\ BinaryDataGenerator.targetSize g' = BinaryDataGenerator.targetSize g
        /\ BinaryDataGenerator.generated g' = BinaryDataGenerator.generated g + len data
        /\ BinaryDataGenerator.chunk g' = BinaryDataGenerator.chunk g
  end.
Proof.
  unfold _read, binary_readable, BinaryDataGenerator.read.
  destruct (next_data _ _ _) as [data|]; [|reflexivity].
  eexists. repeat split.
Qed.


Lemma binary_yields (g : BinaryDataGenerator.t) (t : Z) :
  BinaryDataGenerator.targetSize g = Int t ->
  BinaryDataGenerator.generated g = 0 ->
  0 <= t -> 0 < len (BinaryDataGenerator.chunk g) ->
  yields g (ceil_div t (len (BinaryDataGenerator.chunk g)))
    (expected_chunks t (BinaryDataGenerator.chunk g)).
Proof.
  intros Ht Hg Ht0 Hc fuel Hf.
  pose proof (pull_all_expected _ _ _ binary_read_spec t fuel g Ht Hc) as P.
  rewrite Hg, Z.sub_0_r in P. now apply P.
Qed.

(** ** The chunk built by the constructors *)

Lemma repeat_string_concat (s : jsstring) (n : nat) :
  repeat_string s n = concat (replicate n s).
Proof. induction n as [|n IH]; simpl; [reflexivity | now rewrite IH]. Qed.

Lemma chunkSize_or_default_pos (c : Z) :
  0 < c -> chunkSize_or_default (Some (Int c)) = Int c.
Proof. intros H. destruct c; try lia; reflexivity. Qed.

(** For a positive chunk size the text constructor succeeds, and its chunk
    has exactly that length and repeats the base pattern. *)
Lemma text_new_ok (target : number) (pattern : option jsstring) (c : Z) :
  0 < c ->
  exists g, TextDataGenerator.new target pattern (Some (Int c)) = Ok g
    /\ TextDataGenerator.targetSize g = target
    /\ TextDataGenerator.generated g = 0
    /\ TextDataGenerator.basePattern g
       = TextDataGenerator.pattern_or_default pattern ++ [10]
    /\ len (TextDataGenerator.chunk g) = c
    /\ forall i, (i < Z.to_nat c)%nat ->
         TextDataGenerator.chunk g !! i
         = TextDataGenerator.basePattern g
             !! (i mod length (TextDataGenerator.basePattern g))%nat.
Proof.
  intros Hc. unfold TextDataGenerator.new.
  rewrite chunkSize_or_default_pos by assumption.
  set (bp := TextDataGenerator.pattern_or_default pattern ++ [10]).
  assert (Hbp : 0 < len bp).
  { unfold bp, len. rewrite length_app. simpl. lia. }
  fold (len bp).
  pose proof (ceil_div_nonneg c (len bp) ltac:(lia) Hbp) as Hn.
  pose proof (ceil_div_covers c (len bp) Hbp) as Hcov.
  destruct (Z.ltb_spec (ceil_div c (len bp)) 0) as [Hneg | _]; [lia|].
  eexists. split; [reflexivity|]. simpl.
  set (n := Z.to_nat (ceil_div c (len bp))).
  assert (Hlen : (Z.to_nat c <= length (repeat_string bp n))%nat).
  { rewrite repeat_string_concat, concat_replicate_length.
    unfold n, len in *. nia. }
  assert (Hs : slice0 (repeat_string bp n) c = take (Z.to_nat c) (repeat_string bp n)).
  { apply slice0_take. unfold len. lia. }
  rewrite Hs. repeat split.
  - unfold len. rewrite length_take. lia.
  - intros i Hi. rewrite lookup_take_lt by assumption.
    rewrite repeat_string_concat. apply concat_replicate_lookup.
    rewrite repeat_string_concat, concat_replicate_length in Hlen. lia.
Qed.

Lemma store_length i v (b : list Z) :
  length (BinaryDataGenerator.store i v b) = length b.
Proof. apply length_insert. Qed.

(** A loop that stores [f j] at every index [j] it visits. *)
Lemma for_loop_store (f : nat -> Z) (n : nat) : forall (i : nat) (b : list Z),
  let b' := for_loop n i (fun j b => BinaryDataGenerator.store j (f j) b) b in
  length b' = length b
  /\ forall j, b' !! j
       = if decide (i <= j < i + n /\ j < length b)%nat
         then Some (f j mod 256) else b !! j.
Proof.
  induction n as [|n IH]; intros i b; simpl.
  - split; [reflexivity|]. intros j. case_decide; [lia | reflexivity].
  - destruct (IH (S i) (BinaryDataGenerator.store i (f i) b)) as [Hl Hj].
    rewrite store_length in Hl, Hj. split; [assumption|].
    intros j. rewrite Hj. unfold BinaryDataGenerator.store.
    repeat case_decide; try lia; try reflexivity.
    + assert (j = i) as -> by lia. now apply list_lookup_insert_eq.
    + destruct (decide (i = j)) as [-> | Hne].
      * now rewrite list_insert_ge by lia.
      * now apply list_lookup_insert_ne.
Qed.

(** The loop of the random fill: one draw per index, in order. *)
Lemma for_loop_random (rnd : nat -> Z) (n : nat) : forall (i : nat) (b : list Z) (k : nat),
  exists b',
    for_loop n i (fun j '(b, k) => (BinaryDataGenerator.store j (rnd k) b, S k)) (b, k)
    = (b', (k + n)%nat)
    /\ length b' = length b
    /\ forall j, b' !! j
         = if decide (i <= j < i + n /\ j < length b)%nat
           then Some (rnd (k + (j - i))%nat mod 256) else b !! j.
Proof.
  induction n as [|n IH]; intros i b k; simpl.
  - exists b. rewrite Nat.add_0_r. repeat split.
    intros j. case_decide; [lia | reflexivity].
  - destruct (IH (S i) (BinaryDataGenerator.store i (rnd k) b) (S k))
      as (b' & E & Hl & Hj).
    exists b'. rewrite E, store_length in *. repeat split.
    + f_equal. lia.
    + assumption.
    + intros j. rewrite Hj. unfold BinaryDataGenerator.store.
      repeat case_decide; try lia; try reflexivity.
      * do 3 f_equal. lia.
      * assert (j = i) as -> by lia. rewrite Nat.sub_diag, Nat.add_0_r.
        now apply list_lookup_insert_eq.
      * destruct (decide (i = j)) as [-> | Hne].
        -- now rewrite list_insert_ge by lia.
        -- now apply list_lookup_insert_ne.
Qed.

Lemma sequence_lookup (m : nat) :
  (m < 16)%nat -> BinaryDataGenerator.sequence !! m = Some (Z.of_nat m).
Proof.
  intros H. do 16 (destruct m as [|m]; [reflexivity|]). lia.
Qed.

(** For a non-negative size [createBinaryPattern] returns a Buffer of that
    size whose bytes are those of the strategy, whatever the memory held
    before; only the random fill draws numbers, one per byte. *)
Lemma createBinaryPattern_ok (c : Z) (pattern : option jsstring) (w : World) :
  0 <= c ->
  exists chunk w',
    BinaryDataGenerator.createBinaryPattern (Int c) pattern w = (Ok chunk, w')
    /\ len chunk = c
    /\ (forall i, (i < Z.to_nat c)%nat ->
          chunk !! i = Some (pattern_byte (fill_of pattern) w i))
    /\ heap w' = heap w /\ random w' = random w /\ events w' = events w
    /\ drawn w' = (drawn w + (if bool_decide (pattern = Some (str "random"))
                              then Z.to_nat c else 0))%nat.
Proof.
  intros Hc. unfold BinaryDataGenerator.createBinaryPattern,
    BinaryDataGenerator.allocUnsafe, fill_of.
  destruct (Z.ltb_spec c 0) as [? | _]; [lia|].
  set (buffer := map (fun i => heap w i mod 256) (seq 0 (Z.to_nat c))).
  assert (Hb : length buffer = Z.to_nat c).
  { unfold buffer. now rewrite length_map, length_seq. }
  destruct (bool_decide (pattern = Some (str "random"))).
  - destruct (for_loop_random (random w) (length buffer) 0 buffer (drawn w))
      as (b' & E & Hl & Hj).
    rewrite E. exists b'. eexists. split; [reflexivity|]. simpl.
    repeat split.
    + unfold len. lia.
    + intros i Hi. rewrite Hj. case_decide; [|lia].
      now rewrite Nat.sub_0_r.
    + lia.
  - destruct (bool_decide (pattern = Some (str "zeros"))).
    { eexists. exists w. split; [reflexivity|]. repeat split.
      - unfold len. rewrite length_map. lia.
      - intros i Hi. rewrite list_lookup_fmap.
        destruct (lookup_lt_is_Some_2 buffer i ltac:(lia)) as [x ->].
        reflexivity.
      - lia. }
    destruct (bool_decide (pattern = Some (str "ones"))).
    { eexists. exists w. split; [reflexivity|]. repeat split.
      - unfold len. rewrite length_map. lia.
      - intros i Hi. rewrite list_lookup_fmap.
        destruct (lookup_lt_is_Some_2 buffer i ltac:(lia)) as [x ->].
        reflexivity.
      - lia. }
    destruct (for_loop_store
                (fun i => default 0 (BinaryDataGenerator.sequence
                                       !! (i mod length BinaryDataGenerator.sequence)%nat))
                (length buffer) 0 buffer) as [Hl Hj].
    eexists. exists w. split; [reflexivity|]. repeat split.
    + unfold len. lia.
    + intros i Hi. rewrite Hj. case_decide; [|lia].
      change (length BinaryDataGenerator.sequence) with 16%nat.
      rewrite sequence_lookup by (apply Nat.mod_upper_bound; lia).
      simpl. f_equal.
      pose proof (Nat.mod_upper_bound i 16 ltac:(lia)).
      apply Z.mod_small. lia.
    + lia.
Qed.

Lemma binary_new_ok (target : number) (pattern : option jsstring) (c : Z) (w : World) :
  0 < c ->
  exists g w',
    BinaryDataGenerator.new target pattern (Some (Int c)) w = (Ok g, w')
    /\ BinaryDataGenerator.targetSize g = target
    /\ BinaryDataGenerator.generated g = 0
    /\ len (BinaryDataGenerator.chunk g) = c
    /\ (forall i, (i < Z.to_nat c)%nat ->
          BinaryDataGenerator.chunk g !! i
          = Some (pattern_byte (fill_of pattern) w i))
    /\ heap w' = heap w /\ random w' = random w /\ events w' = events w
    /\ drawn w' = (drawn w + (if bool_decide (pattern = Some (str "random"))
                              then Z.to_nat c else 0))%nat.
Proof.
  intros Hc. unfold BinaryDataGenerator.new.
  rewrite chunkSize_or_default_pos by assumption.
  destruct (createBinaryPattern_ok c pattern w ltac:(lia))
    as (chunk & w' & -> & H).
  eexists. exists w'. split; [reflexivity|]. simpl. tauto.
Qed.

(** ** Chunk lengths (C1, C2) *)







(** ** The bytes of the binary output (C3, C9) *)







(** ** Runs of the stream into the file *)

Lemma add_events_nil (w : World) : add_events [] w = w.
Proof. destruct w. unfold add_events. simpl. now rewrite app_nil_r. Qed.

Lemma add_events_app (e1 e2 : list event) (w : World) :
  add_events e2 (add_events e1 w) = add_events (e1 ++ e2) w.
Proof. unfold add_events. simpl. now rewrite app_assoc. Qed.

Lemma written_app (e1 e2 : list event) :
  written (e1 ++ e2) = written e1 ++ written e2.
Proof.
  induction e1 as [|ev e1 IH]; [reflexivity|].
  destruct ev; simpl; rewrite IH; try reflexivity. now rewrite app_assoc.
Qed.

Lemma without_progress_app (e1 e2 : list event) :
  without_progress (e1 ++ e2) = without_progress e1 ++ without_progress e2.
Proof. apply List.filter_app. Qed.

Lemma written_without_progress (evs : list event) :
  written (without_progress evs) = written evs.
Proof.
  induction evs as [|ev evs IH]; [reflexivity|].
  destruct ev; simpl; congruence.
Qed.

Lemma logs_only_ret {A} (a : A) : logs_only (ret a).
Proof. exists (Returned a), []. intros w. now rewrite add_events_nil. Qed.

Lemma logs_only_throw {A} (e : error) : logs_only (@throw A e).
Proof. exists (Thrown e), []. intros w. now rewrite add_events_nil. Qed.

Lemma logs_only_log (ev : event) : logs_only (log ev).
Proof. exists (Returned tt), [ev]. reflexivity. Qed.

Lemma logs_only_of_result {A} (r : result A) : logs_only (of_result r).
Proof. destruct r; [apply logs_only_ret | apply logs_only_throw]. Qed.

Lemma logs_only_bind {A B} (c : M A) (k : A -> M B) :
  logs_only c -> (forall a, logs_only (k a)) -> logs_only (bind c k).
Proof.
  intros (o & evs & Hc) Hk. unfold bind.
  destruct o as [a | e |].
  - destruct (Hk a) as (o' & evs' & Hk').
    exists o', (evs ++ evs'). intros w. now rewrite Hc, Hk', add_events_app.
  - exists (Thrown e), evs. intros w. now rewrite Hc.
  - exists Unfinished, evs. intros w. now rewrite Hc.
Qed.

(** The progress listener returns, and reports at most once per chunk. *)
Lemma on_data_spec (targetBytes : number) (chunk : list Z) (st : progress_state) :
  exists st' evs,
    (forall w, on_data targetBytes chunk st w = (Returned st', add_events evs w))
    /\ without_progress evs = []
    /\ bytesWritten st' = bytesWritten st + len chunk.
Proof.
  unfold on_data.
  destruct (_ || _).
  - eexists. eexists. split; [|split]; [intros w; reflexivity | reflexivity..].
  - eexists. exists []. split; [|split];
      [intros w; now rewrite add_events_nil | reflexivity..].
Qed.

Lemma logs_only_flow {L} (listener : list Z -> L -> M L) (fuel : nat) :
  (forall chunk l, logs_only (listener chunk l)) ->
  forall l g, logs_only (flow fuel listener l g).
Proof.
  intros Hl. induction fuel as [|fuel IH]; intros l g; simpl.
  - exists Unfinished, []. intros w. now rewrite add_events_nil.
  - destruct (stream_read g) as [g' [[|b chunk]|]].
    + apply IH.
    + apply logs_only_bind; [apply Hl|]. intros l'.
      apply logs_only_bind; [apply logs_only_log|]. intros _. apply IH.
    + apply logs_only_log.
Qed.

Lemma logs_only_on_data targetBytes chunk st : logs_only (on_data targetBytes chunk st).
Proof.
  destruct (on_data_spec targetBytes chunk st) as (st' & evs & H & _).
  now exists (Returned st'), evs.
Qed.

(** The file receives the Buffers of the stream, in order; the progress
    listener changes neither the outcome nor any other event. *)
Lemma flow_spec (targetBytes : number) (fuel : nat) :
  forall (st : progress_state) (g : generator),
  exists o evs,
    (forall w, flow fuel (on_data targetBytes) st g w = (o, add_events evs w))
    /\ (forall w, pipeline fuel g w = (o, add_events (without_progress evs) w))
    /\ match pull_all fuel g with
       | Some chunks => o = Returned tt /\ written evs = concat chunks
       | None => o = Unfinished
       end.
Proof.
  unfold pipeline.
  induction fuel as [|fuel IH]; intros st g; simpl.
  - exists Unfinished, []. repeat split; intros w; now rewrite add_events_nil.
  - unfold _read at 1, stream_readable.
    destruct (stream_read g) as [g' [[|b chunk]|]].
    + destruct (IH st g') as (o & evs & H1 & H2 & H3).
      exists o, evs. repeat split; try assumption.
      destruct (pull_all fuel g'); [|assumption].
      destruct H3 as [-> ->]. now split.
    + destruct (on_data_spec targetBytes (b :: chunk) st) as (st' & pe & Hd & Hpe & _).
      destruct (IH st' g') as (o & evs & H1 & H2 & H3).
      exists o, (pe ++ [FileWrite (b :: chunk)] ++ evs).
      split; [|split].
      * intros w. unfold bind. rewrite Hd. unfold log, emit.
        now rewrite H1, !add_events_app.
      * intros w. unfold bind, ret, log, emit.
        rewrite H2, add_events_app.
        rewrite !without_progress_app, Hpe. reflexivity.
      * destruct (pull_all fuel g'); [|assumption].
        destruct H3 as [-> Hw]. split; [reflexivity|].
        rewrite !written_app, Hw.
        replace (written pe) with (@nil Z).
        { simpl. now rewrite app_nil_r. }
        rewrite <- (written_without_progress pe), Hpe. reflexivity.
    + exists (Returned tt), [FileEnd]. repeat split.
Qed.

(** ** Determinism (C8) *)

(** Without the random fill the binary constructor neither reads the world
    (the memory it allocates is overwritten entirely) nor changes it. *)
Lemma binary_new_world_independent
    (target : number) (pattern : option jsstring) (chunkSize : option number) :
  fill_of pattern <> Random ->
  exists r, forall w, BinaryDataGenerator.new target pattern chunkSize w = (r, w).
Proof.
  intros Hf. unfold BinaryDataGenerator.new.
  destruct (chunkSize_or_default chunkSize) as [c | |] eqn:Ec;
    try (exists (Err RangeError); intros w; reflexivity).
  destruct (Z.ltb_spec c 0) as [Hneg | Hpos].
  - exists (Err RangeError). intros w.
    unfold BinaryDataGenerator.createBinaryPattern, BinaryDataGenerator.allocUnsafe.
    destruct (Z.ltb_spec c 0); [reflexivity | lia].
  - set (w0 := fresh (fun _ => 0) (fun _ => 0)).
    exists (Ok {| BinaryDataGenerator.targetSize := target;
                  BinaryDataGenerator.generated := 0;
                  BinaryDataGenerator.chunkSize := Int c;
                  BinaryDataGenerator.chunk :=
                    map (pattern_byte (fill_of pattern) w0) (seq 0 (Z.to_nat c)) |}).
    intros w.
    destruct (createBinaryPattern_ok c pattern w Hpos)
      as (chunk & w' & -> & Hlen & Hbytes & Hh & Hr & He & Hd).
    assert (Hnr : bool_decide (pattern = Some (str "random")) = false).
    { unfold fill_of in Hf. destruct (bool_decide _); congruence. }
    rewrite Hnr, Nat.add_0_r in Hd.
    assert (w' = w) as -> by (destruct w, w'; simpl in *; congruence).
    do 3 f_equal. apply list_eq. intros i.
    destruct (Nat.lt_ge_cases i (Z.to_nat c)) as [Hi | Hi].
    + rewrite Hbytes by assumption.
      rewrite list_lookup_fmap, lookup_seq_lt by assumption. simpl.
      f_equal. destruct (fill_of pattern); try reflexivity. congruence.
    + rewrite !lookup_ge_None_2; [reflexivity | |].
      * now rewrite length_map, length_seq.
      * unfold len in Hlen. lia.
Qed.

Lemma generateData_logs_only
    (fuel : nat) (type size output : jsstring) (options : Options) :
  (type = str "binary" -> fill_of (binaryPattern options) <> Random) ->
  logs_only (generateData fuel type size output options).
Proof.
  intros Hf. unfold generateData.
  apply logs_only_bind; [apply logs_only_of_result|]. intros targetBytes.
  apply logs_only_bind; [apply logs_only_log|]. intros _.
  apply logs_only_bind; [apply logs_only_log|]. intros _.
  apply logs_only_bind.
  - unfold new_generator. case_bool_decide.
    + apply logs_only_bind; [apply logs_only_of_result|]. intros g.
      apply logs_only_ret.
    + case_bool_decide; [|apply logs_only_throw].
      apply logs_only_bind; [|intros g; apply logs_only_ret].
      destruct (binary_new_world_independent targetBytes (binaryPattern options)
                  (chunkSize options) (Hf ltac:(assumption))) as [r Hr].
      destruct r as [g | e].
      * exists (Returned g), []. intros w. now rewrite Hr, add_events_nil.
      * exists (Thrown e), []. intros w. now rewrite Hr, add_events_nil.
  - intros g.
    apply logs_only_bind; [apply logs_only_log|]. intros _.
    apply logs_only_bind; [|intros _; apply logs_only_log].
    apply logs_only_flow. intros chunk l. apply logs_only_on_data.
Qed.

Lemma without_progress_idem (evs : list event) :
  without_progress (without_progress evs) = without_progress evs.
Proof.
  induction evs as [|ev evs IH]; [reflexivity|].
  destruct ev; simpl; rewrite ?IH; reflexivity.
Qed.

(** C8. In text mode, and in binary mode with the sequential, zeros or
    ones fill, two runs with identical parameters have the same outcome and
    the same events, so they write the same bytes in the same order,
    whatever the memory and the random numbers of each run. And the
    progress listener changes neither the outcome nor the writes: with and
    without it the events other than progress reports are the same. *)
Theorem output_is_deterministic
    (fuel : nat) (type size output : jsstring) (options : Options)
    (w1 w2 : World) :
  (type = str "binary" -> fill_of (binaryPattern options) <> Random) ->
  events w1 = events w2 ->
  (fst (generateData fuel type size output options w1)
   = fst (generateData fuel type size output options w2)
   /\ events (snd (generateData fuel type size output options w1))
      = events (snd (generateData fuel type size output options w2))
   /\ written (events (snd (generateData fuel type size output options w1)))
      = written (events (snd (generateData fuel type size output options w2))))
  /\ forall (targetBytes : number) (st : progress_state) (g : generator) (w : World),
       fst (flow fuel (on_data targetBytes) st g w) = fst (pipeline fuel g w)
       /\ without_progress (events (snd (flow fuel (on_data targetBytes) st g w)))
          = without_progress (events (snd (pipeline fuel g w)))
       /\ written (events (snd (flow fuel (on_data targetBytes) st g w)))
          = written (events (snd (pipeline fuel g w))).
Proof.
  intros Hf Hev. split.
  - destruct (generateData_logs_only fuel type size output options Hf)
      as (o & evs & H).
    rewrite (H w1), (H w2). simpl. rewrite Hev. repeat split.
  - intros targetBytes st g w.
    destruct (flow_spec targetBytes fuel st g) as (o & evs & H1 & H2 & _).
    rewrite H1, H2. simpl.
    rewrite !without_progress_app, without_progress_idem.
    rewrite !written_app, written_without_progress. repeat split.
Qed.

Lemma output_is_deterministic_witness :
  (str "binary" = str "binary" ->
   fill_of (Some (str "zeros")) <> Random)
  /\ events (fresh (fun _ => 1) (fun _ => 2)) = events (fresh (fun _ => 3) (fun _ => 4))
  /\ written
       (events
          (snd (generateData 4 (str "binary") (str "20") (str "out.bin")
                  {| pattern := None; binaryPattern := Some (str "zeros");
                     chunkSize := Some (Int 8) |}
                  (fresh (fun _ => 1) (fun _ => 2)))))
     = written
         (events
            (snd (generateData 4 (str "binary") (str "20") (str "out.bin")
                    {| pattern := None; binaryPattern := Some (str "zeros");
                       chunkSize := Some (Int 8) |}
                    (fresh (fun _ => 3) (fun _ => 4))))).
Proof.
  assert (H : str "binary" = str "binary" ->
              fill_of (Some (str "zeros")) <> Random)
    by (intros _; vm_compute; discriminate).
  split; [exact H|]. split; [reflexivity|].
  destruct (output_is_deterministic 4 (str "binary") (str "20") (str "out.bin")
              {| pattern := None; binaryPattern := Some (str "zeros");
                 chunkSize := Some (Int 8) |}
              (fresh (fun _ => 1) (fun _ => 2)) (fresh (fun _ => 3) (fun _ => 4))
              H eq_refl) as [(_ & _ & Hw) _].
  exact Hw.
Defined.

(** ** Validation (C6, C10) *)

Lemma binary_new_events target pattern chunkSize w r w' :
  BinaryDataGenerator.new target pattern chunkSize w = (r, w') ->
  events w' = events w.
Proof.
  unfold BinaryDataGenerator.new, BinaryDataGenerator.createBinaryPattern.
  destruct (BinaryDataGenerator.allocUnsafe _ w) as [buffer | e].
  - destruct (bool_decide (pattern = Some (str "random"))).
    + destruct (for_loop _ _ _ _) as [b k]. now intros [= _ <-].
    + destruct (bool_decide _); [now intros [= _ <-]|].
      destruct (bool_decide _); now intros [= _ <-].
  - now intros [= _ <-].
Qed.

(** The stream itself never throws. *)
Lemma flow_not_thrown targetBytes fuel st g w e w' :
  flow fuel (on_data targetBytes) st g w <> (Thrown e, w').
Proof.
  destruct (flow_spec targetBytes fuel st g) as (o & evs & H & _ & Ho).
  rewrite H. destruct (pull_all fuel g); [destruct Ho as [-> _] | subst o];
    discriminate.
Qed.

(** Whatever [generateData] throws, it throws before the output file is
    created: until then it has only printed and made the directory. *)
Lemma generateData_throws_early fuel type size output options w e w' :
  generateData fuel type size output options w = (Thrown e, w') ->
  exists evs, events w' = events w ++ evs
              /\ List.existsb touches_file evs = false /\ written evs = [].
Proof.
  unfold generateData, bind.
  destruct (parseSize size) as [targetBytes | e0]; simpl.
  - unfold new_generator.
    set (w1 := emit (Mkdir output) (emit (Console (Started type targetBytes output)) w)).
    assert (He1 : events w1
                  = events w ++ [Console (Started type targetBytes output); Mkdir output]).
    { unfold w1, emit, add_events. simpl. now rewrite <- app_assoc. }
    case_bool_decide.
    + unfold bind, of_result.
      destruct (TextDataGenerator.new _ _ _) as [g | e1]; simpl.
      * destruct (flow fuel _ _ _ _) as [[[] | e2 |] w2] eqn:Ef; simpl.
        -- discriminate.
        -- now apply flow_not_thrown in Ef.
        -- discriminate.
      * intros [= <- <-]. eexists. split; [exact He1|]. repeat split.
    + case_bool_decide.
      * unfold bind.
        destruct (BinaryDataGenerator.new _ _ _ w1) as [[g | e1] w2] eqn:En; simpl.
        -- destruct (flow fuel _ _ _ _) as [[[] | e2 |] w3] eqn:Ef; simpl.
           ++ discriminate.
           ++ now apply flow_not_thrown in Ef.
           ++ discriminate.
        -- intros [= <- <-]. apply binary_new_events in En.
           eexists. split; [rewrite En; exact He1|]. repeat split.
      * unfold throw. intros [= <- <-].
        eexists. split; [exact He1|]. repeat split.
  - unfold throw. intros [= <- <-]. exists []. rewrite app_nil_r. repeat split.
Qed.

Lemma chunkSize_or_default_zero :
  chunkSize_or_default (Some (Int 0)) = Int 65536.
Proof. reflexivity. Qed.

Lemma chunkSize_or_default_64K :
  chunkSize_or_default (Some (Int 65536)) = Int 65536.
Proof. reflexivity. Qed.

Lemma text_new_zero (target : number) (pattern : option jsstring) :
  TextDataGenerator.new target pattern (Some (Int 0))
  = TextDataGenerator.new target pattern (Some (Int 65536)).
Proof.
  unfold TextDataGenerator.new.
  now rewrite chunkSize_or_default_zero, chunkSize_or_default_64K.
Qed.

Lemma binary_new_zero (target : number) (pattern : option jsstring) (w : World) :
  BinaryDataGenerator.new target pattern (Some (Int 0)) w
  = BinaryDataGenerator.new target pattern (Some (Int 65536)) w.
Proof.
  unfold BinaryDataGenerator.new.
  now rewrite chunkSize_or_default_zero, chunkSize_or_default_64K.
Qed.

(** A negative chunk size is not checked either. The binary constructor
    fails in [Buffer.allocUnsafe]; the text constructor fails in
    [String.repeat] when the count is negative, and otherwise builds an
    empty chunk. *)
Lemma negative_chunk_size (target : number) (pattern : option jsstring) (c : Z) :
  c < 0 ->
  (forall w, BinaryDataGenerator.new target pattern (Some (Int c)) w
             = (Err RangeError, w))
  /\ (c <= - len (TextDataGenerator.pattern_or_default pattern ++ [10]) ->
      TextDataGenerator.new target pattern (Some (Int c)) = Err RangeError)
  /\ (- len (TextDataGenerator.pattern_or_default pattern ++ [10]) < c ->
      exists g, TextDataGenerator.new target pattern (Some (Int c)) = Ok g
                /\ TextDataGenerator.chunk g = []).
Proof.
  intros Hc.
  assert (Hd : chunkSize_or_default (Some (Int c)) = Int c)
    by (destruct c; try lia; reflexivity).
  set (bp := TextDataGenerator.pattern_or_default pattern ++ [10]).
  assert (Hbp : 0 < len bp).
  { unfold bp, len. rewrite length_app. simpl. lia. }
  split; [|split].
  - intros w. unfold BinaryDataGenerator.new,
      BinaryDataGenerator.createBinaryPattern, BinaryDataGenerator.allocUnsafe.
    rewrite Hd. destruct (Z.ltb_spec c 0); [reflexivity | lia].
  - intros Hle. unfold TextDataGenerator.new. rewrite Hd. fold bp. fold (len bp).
    assert (ceil_div c (len bp) < 0).
    { unfold ceil_div.
      assert (1 <= (- c) / len bp) by (apply Z.div_le_lower_bound; lia). lia. }
    destruct (Z.ltb_spec (ceil_div c (len bp)) 0); [reflexivity | lia].
  - intros Hgt. unfold TextDataGenerator.new. rewrite Hd. fold bp. fold (len bp).
    assert (E : ceil_div c (len bp) = 0).
    { unfold ceil_div. rewrite Z.div_small by lia. reflexivity. }
    rewrite E. simpl. eexists. split; [reflexivity|].
    simpl. unfold slice0. now rewrite take_nil.
Qed.

(** C6 as stated fails at chunkBytes = 0: both constructors succeed. *)
Lemma zero_chunk_size_counterexample :
  (exists g, TextDataGenerator.new (Int 10) None (Some (Int 0)) = Ok g)
  /\ (exists g w',
        BinaryDataGenerator.new (Int 10) None (Some (Int 0))
          (fresh (fun _ => 0) (fun _ => 0)) = (Ok g, w')).
Proof.
  split.
  - rewrite text_new_zero.
    destruct (text_new_ok (Int 10) None 65536 ltac:(lia)) as (g & H & _).
    now exists g.
  - rewrite binary_new_zero.
    destruct (binary_new_ok (Int 10) None 65536
                (fresh (fun _ => 0) (fun _ => 0)) ltac:(lia)) as (g & w' & H & _).
    now exists g, w'.
Qed.

(** C6, as the code has it. There is no check of the chunk size: with
    chunkBytes = 0 both constructors succeed, with a chunk of the default
    65536 units. What [generateData] does throw (the error of [parseSize]
    for a malformed size, the unknown-type error for a type other than
    text and binary, an error of a constructor) it throws before the
    output file is created and before any byte is written. No size that
    [parseSize] returns is negative. *)
Theorem errors_precede_output :
  (forall size z, parseSize size = Ok (Int z) -> 0 <= z)
  /\ (forall target pattern,
      exists g, TextDataGenerator.new target pattern (Some (Int 0)) = Ok g
                /\ len (TextDataGenerator.chunk g) = 65536)
  /\ (forall target pattern w,
        exists g w', BinaryDataGenerator.new target pattern (Some (Int 0)) w = (Ok g, w')
                     /\ len (BinaryDataGenerator.chunk g) = 65536)
  /\ (forall fuel type size output options w e,
        parseSize size = Err e ->
        generateData fuel type size output options w = (Thrown e, w))
  /\ (forall fuel type size output options w targetBytes,
        parseSize size = Ok targetBytes ->
        type <> str "text" -> type <> str "binary" ->
        fst (generateData fuel type size output options w) = Thrown (UnknownType type))
  /\ (forall fuel type size output options w e w',
        generateData fuel type size output options w = (Thrown e, w') ->
        exists evs, events w' = events w ++ evs
                    /\ List.existsb touches_file evs = false
                    /\ written (events w') = written (events w)).
Proof.
  split; [exact parseSize_nonneg|].
  split; [|split; [|split; [|split]]].
  - intros target pattern. rewrite text_new_zero.
    destruct (text_new_ok target pattern 65536 ltac:(lia)) as (g & H & _ & _ & _ & Hl & _).
    now exists g.
  - intros target pattern w. rewrite binary_new_zero.
    destruct (binary_new_ok target pattern 65536 w ltac:(lia))
      as (g & w' & H & _ & _ & Hl & _).
    now exists g, w'.
  - intros fuel type size output options w e He.
    unfold generateData, bind. now rewrite He.
  - intros fuel type size output options w targetBytes Hp Ht Hb.
    unfold generateData, bind. rewrite Hp. simpl.
    unfold new_generator. rewrite !bool_decide_eq_false_2 by assumption.
    reflexivity.
  - intros fuel type size output options w e w' H.
    destruct (generateData_throws_early _ _ _ _ _ _ _ _ H) as (evs & He & Hn & Hw).
    exists evs. split; [assumption|]. split; [assumption|].
    now rewrite He, written_app, Hw, app_nil_r.
Qed.

Lemma errors_precede_output_witness :
  generateData 1 (str "video") (str "10MB") (str "out/clip")
    {| pattern := None; binaryPattern := None; chunkSize := Some (Int 0) |}
    (fresh (fun _ => 0) (fun _ => 0))
  = (Thrown (UnknownType (str "video")),
     add_events [Console (Started (str "video") (Int 10485760) (str "out/clip"));
                 Mkdir (str "out/clip")]
       (fresh (fun _ => 0) (fun _ => 0)))
  /\ exists evs,
       events (add_events
                 [Console (Started (str "video") (Int 10485760) (str "out/clip"));
                  Mkdir (str "out/clip")]
                 (fresh (fun _ => 0) (fun _ => 0)))
       = events (fresh (fun _ => 0) (fun _ => 0)) ++ evs
       /\ List.existsb touches_file evs = false.
Proof.
  assert (H : generateData 1 (str "video") (str "10MB") (str "out/clip")
                {| pattern := None; binaryPattern := None; chunkSize := Some (Int 0) |}
                (fresh (fun _ => 0) (fun _ => 0))
              = (Thrown (UnknownType (str "video")),
                 add_events
                   [Console (Started (str "video") (Int 10485760) (str "out/clip"));
                    Mkdir (str "out/clip")]
                   (fresh (fun _ => 0) (fun _ => 0))))
    by (vm_compute; reflexivity).
  split; [exact H|].
  destruct errors_precede_output as (_ & _ & _ & _ & _ & Hearly).
  destruct (Hearly _ _ _ _ _ _ _ _ H) as (evs & He & Hn & _).
  exists evs. split; assumption.
Defined.

(** C10. A chunk size that parses to 0 ("0", "0B") raises no error: both
    constructors, [generateData] and the command behave exactly as with
    the default chunk size, 65536 ("64KB"). *)
Theorem zero_chunk_size_is_default :
  parseSize (str "0") = Ok (Int 0)
  /\ parseSize (str "0B") = Ok (Int 0)
  /\ parseSize (str "64KB") = Ok (Int 65536)
  /\ (forall target pattern,
        TextDataGenerator.new target pattern (Some (Int 0))
        = TextDataGenerator.new target pattern (Some (Int 65536))
        /\ exists g, TextDataGenerator.new target pattern (Some (Int 0)) = Ok g
                     /\ TextDataGenerator.chunkSize g = Int 65536
                     /\ len (TextDataGenerator.chunk g) = 65536)
  /\ (forall target pattern w,
        BinaryDataGenerator.new target pattern (Some (Int 0)) w
        = BinaryDataGenerator.new target pattern (Some (Int 65536)) w
        /\ exists g w',
             BinaryDataGenerator.new target pattern (Some (Int 0)) w = (Ok g, w')
             /\ BinaryDataGenerator.chunkSize g = Int 65536
             /\ len (BinaryDataGenerator.chunk g) = 65536)
  /\ (forall fuel type size output pattern binaryPattern w,
        generateData fuel type size output
          {| pattern := pattern; binaryPattern := binaryPattern;
             chunkSize := Some (Int 0) |} w
        = generateData fuel type size output
            {| pattern := pattern; binaryPattern := binaryPattern;
               chunkSize := Some (Int 65536) |} w)
  /\ (forall fuel type size output pattern binaryPattern w zero,
        zero ∈ [str "0"; str "0B"] ->
        action fuel
          {| cli_type := type; cli_size := size; cli_output := output;
             cli_pattern := pattern; cli_binaryPattern := binaryPattern;
             cli_chunkSize := zero |} w
        = action fuel
            {| cli_type := type; cli_size := size; cli_output := output;
               cli_pattern := pattern; cli_binaryPattern := binaryPattern;
               cli_chunkSize := str "64KB" |} w).
Proof.
  assert (P0 : parseSize (str "0") = Ok (Int 0)) by (vm_compute; reflexivity).
  assert (P0B : parseSize (str "0B") = Ok (Int 0)) by (vm_compute; reflexivity).
  assert (P64 : parseSize (str "64KB") = Ok (Int 65536)) by (vm_compute; reflexivity).
  assert (G : forall fuel type size output pattern binaryPattern w,
             generateData fuel type size output
               {| pattern := pattern; binaryPattern := binaryPattern;
                  chunkSize := Some (Int 0) |} w
             = generateData fuel type size output
                 {| pattern := pattern; binaryPattern := binaryPattern;
                    chunkSize := Some (Int 65536) |} w).
  { intros fuel type size output pat bpat w.
    assert (N : forall targetBytes w1,
               new_generator type targetBytes
                 {| pattern := pat; binaryPattern := bpat;
                    chunkSize := Some (Int 0) |} w1
               = new_generator type targetBytes
                   {| pattern := pat; binaryPattern := bpat;
                      chunkSize := Some (Int 65536) |} w1).
    { intros targetBytes w1. unfold new_generator.
      cbn [pattern binaryPattern chunkSize].
      repeat case_bool_decide; unfold bind;
        rewrite ?text_new_zero, ?binary_new_zero; reflexivity. }
    unfold generateData, bind.
    destruct (of_result (parseSize size) w) as [[targetBytes | e |] w1];
      [|reflexivity..].
    cbv beta iota. unfold log. now rewrite N. }
  repeat (split; [assumption|]). split; [|split; [|split; [exact G|]]].
  - intros target pattern. split; [apply text_new_zero|].
    rewrite text_new_zero. unfold TextDataGenerator.new.
    destruct (text_new_ok target pattern 65536 ltac:(lia))
      as (g & H & _ & _ & _ & Hl & _).
    unfold TextDataGenerator.new in H. rewrite H. exists g.
    split; [reflexivity|]. split; [|assumption].
    rewrite chunkSize_or_default_64K in H.
    destruct (_ <? 0) in H; [discriminate|]. now injection H as <-.
  - intros target pattern w. split; [apply binary_new_zero|].
    rewrite binary_new_zero.
    destruct (binary_new_ok target pattern 65536 w ltac:(lia))
      as (g & w' & H & _ & _ & Hl & _).
    exists g, w'. split; [assumption|]. split; [|assumption].
    unfold BinaryDataGenerator.new in H. rewrite chunkSize_or_default_64K in H.
    destruct (BinaryDataGenerator.createBinaryPattern _ _ _) as [[chunk | e] w''];
      [|discriminate].
    now injection H as <- _.
  - intros fuel type size output pattern binaryPattern w zero Hz.
    unfold action, bind.
    cbn [cli_type cli_size cli_output cli_pattern cli_binaryPattern cli_chunkSize].
    rewrite P64.
    apply elem_of_cons in Hz as [-> | Hz];
      [|apply list_elem_of_singleton in Hz as ->].
    + rewrite P0. unfold of_result, ret. apply G.
    + rewrite P0B. unfold of_result, ret. apply G.
Qed.

Lemma zero_chunk_size_is_default_witness :
  str "0B" ∈ [str "0"; str "0B"]
  /\ action 3
       {| cli_type := str "text"; cli_size := str "100"; cli_output := str "o";
          cli_pattern := None; cli_binaryPattern := str "sequence";
          cli_chunkSize := str "0B" |} (fresh (fun _ => 0) (fun _ => 0))
     = action 3
         {| cli_type := str "text"; cli_size := str "100"; cli_output := str "o";
            cli_pattern := None; cli_binaryPattern := str "sequence";
            cli_chunkSize := str "64KB" |} (fresh (fun _ => 0) (fun _ => 0)).
Proof.
  assert (H : str "0B" ∈ [str "0"; str "0B"])
    by (apply elem_of_cons; right; apply list_elem_of_singleton; reflexivity).
  split; [exact H|].
  destruct zero_chunk_size_is_default as (_ & _ & _ & _ & _ & _ & Ha).
  exact (Ha 3%nat (str "text") (str "100") (str "o") None (str "sequence")
            (fresh (fun _ => 0) (fun _ => 0)) (str "0B") H).
Defined.

(** ** Text output (C5, C7) *)

(** C5 as stated fails: for the pattern "AB" and 10 bytes the file does not
    hold "ABABABABAB"; a line break follows every copy of the pattern. *)
Lemma text_AB_counterexample :
  written
    (events
       (snd (generateData 2 (str "text") (str "10") (str "out.txt")
               {| pattern := Some (str "AB"); binaryPattern := None;
                  chunkSize := None |}
               (fresh (fun _ => 0) (fun _ => 0)))))
  = [65; 66; 10; 65; 66; 10; 65; 66; 10; 65]
  /\ [65; 66; 10; 65; 66; 10; 65; 66; 10; 65] <> str "ABABABABAB".
Proof. split; [vm_compute; reflexivity | discriminate]. Qed.

(** C5, as the code has it. For the request of 10 bytes of text with the
    pattern "AB" (and the default chunk size) the run completes and the file
    holds the first 10 bytes of the repeated base pattern, which is the
    pattern followed by a line break: "AB\nAB\nAB\nA". *)
Theorem text_AB_output
    (fuel : nat) (output : jsstring) (binaryPattern : option jsstring)
    (heap random : nat -> Z) :
  fst (generateData (S (S fuel)) (str "text") (str "10") output
         {| pattern := Some (str "AB"); binaryPattern := binaryPattern;
            chunkSize := None |}
         (fresh heap random)) = Returned tt
  /\ written
       (events
          (snd (generateData (S (S fuel)) (str "text") (str "10") output
                  {| pattern := Some (str "AB"); binaryPattern := binaryPattern;
                     chunkSize := None |}
                  (fresh heap random))))
     = [65; 66; 10; 65; 66; 10; 65; 66; 10; 65]
  /\ [65; 66; 10; 65; 66; 10; 65; 66; 10; 65]
     = take 10 (repeat_string (str "AB" ++ [10]) 4).
Proof. vm_compute. repeat split. Qed.

(** C7 fails on the code for a pattern outside ASCII. The generator counts
    UTF-16 code units ([data.length] of the string it pushes) while the
    stream writes the UTF-8 bytes of that string: for the pattern "é"
    (U+00E9) and the size "1" the file holds 2 bytes, not 1. *)
Theorem text_output_length_non_ascii :
  parseSize (str "1") = Ok (Int 1)
  /\ generateData 2 (str "text") (str "1") (str "out.txt")
       {| pattern := Some [233]; binaryPattern := None; chunkSize := None |}
       (fresh (fun _ => 0) (fun _ => 0))
     = (Returned tt,
        add_events
          [Console (Started (str "text") (Int 1) (str "out.txt"));
           Mkdir (str "out.txt");
           CreateWriteStream (str "out.txt");
           Progress (Int 200) 2;
           FileWrite [195; 169];
           FileEnd;
           Console (Complete (str "out.txt") (Int 1))]
          (fresh (fun _ => 0) (fun _ => 0)))
  /\ len (written
            (events
               (snd (generateData 2 (str "text") (str "1") (str "out.txt")
                       {| pattern := Some [233]; binaryPattern := None;
                          chunkSize := None |}
                       (fresh (fun _ => 0) (fun _ => 0))))))
     = 2.
Proof. vm_compute. repeat split. Qed.



Lemma stream_pull_binary (fuel : nat) : forall g : BinaryDataGenerator.t,
  pull_all fuel (BinaryGen g) = pull_all fuel g.
Proof.
  induction fuel as [|fuel IH]; intros g; [reflexivity|].
  simpl. unfold _read at 1, stream_readable, stream_read.
  destruct (_read g) as [g' [data|]]; simpl; [|reflexivity].
  now rewrite IH.
Qed.



(** In binary mode the file always has exactly the length asked for. *)
Lemma binary_output_length
    (fuel : nat) (size output : jsstring) (options : Options) (w : World)
    (t c : Z) :
  parseSize size = Ok (Int t) ->
  chunkSize_or_default (chunkSize options) = Int c -> 0 < c ->
  (Z.to_nat (ceil_div t c) < fuel)%nat ->
  exists w',
    generateData fuel (str "binary") size output options w = (Returned tt, w')
    /\ len (written (events w')) = len (written (events w)) + t.
Proof.
  intros Hp Hcs Hc Hfuel.
  pose proof (parseSize_nonneg _ _ Hp) as Ht.
  set (w1 := emit (Mkdir output) (emit (Console (Started (str "binary") (Int t) output)) w)).
  destruct (binary_new_ok (Int t) (binaryPattern options) c w1 Hc)
    as (g & w2 & Hnew & Htg & Hgen & Hlen & _ & _ & _ & Hev & _).
  assert (Hnew' : BinaryDataGenerator.new (Int t) (binaryPattern options)
                    (chunkSize options) w1 = (Ok g, w2)).
  { rewrite <- Hnew. unfold BinaryDataGenerator.new.
    now rewrite Hcs, chunkSize_or_default_pos. }
  assert (Hy : pull_all fuel g = Some (expected_chunks t (BinaryDataGenerator.chunk g))).
  { apply (binary_yields g t Htg Hgen Ht); [lia | now rewrite Hlen]. }
  destruct (flow_spec (Int t) fuel {| lastProgress := Int 0; bytesWritten := 0 |}
              (BinaryGen g)) as (o & evs & Hflow & _ & Ho).
  rewrite stream_pull_binary, Hy in Ho. destruct Ho as [-> Hw].
  unfold generateData, bind. rewrite Hp. simpl.
  unfold new_generator.
  rewrite bool_decide_eq_false_2 by discriminate.
  rewrite bool_decide_eq_true_2 by reflexivity.
  unfold bind. fold w1. rewrite Hnew'. simpl. rewrite Hflow. simpl.
  eexists. split; [reflexivity|].
  unfold log, emit, add_events. simpl. rewrite Hev.
  unfold w1, emit, add_events. simpl.
  rewrite !written_app, Hw. simpl. rewrite !app_nil_r.
  unfold len. rewrite length_app.
  pose proof (expected_chunks_total (BinaryDataGenerator.chunk g) t Ht ltac:(lia)) as Htot.
  unfold len in Htot. lia.
Qed.

(** * Further properties of the code *)

(** ** Size strings *)

(** X1. A size string that is empty, or that does not begin with an ASCII
    digit (a sign, a dot, a space, a letter), is rejected: there is no way
    to write a negative size. *)
Theorem parseSize_needs_leading_digit (s : jsstring) :
  match s with
  | [] => True
  | c :: _ => is_digit c = false
  end ->
  parseSize s = Err (InvalidSizeFormat s).
Proof.
  intros H. unfold parseSize, size_match.
  destruct s as [|c s]; [reflexivity|]. simpl. now rewrite H.
Qed.

Lemma parseSize_needs_leading_digit_witness :
  is_digit 45 = false
  /\ parseSize (str "-5MB") = Err (InvalidSizeFormat (str "-5MB")).
Proof.
  split; [reflexivity|].
  exact (parseSize_needs_leading_digit (str "-5MB") eq_refl).
Defined.

Lemma upper_unit_idem (c : Z) : upper_unit (upper_unit c) = upper_unit c.
Proof.
  unfold upper_unit.
  destruct ((97 <=? c) && (c <=? 122)) eqn:E; [|now rewrite E].
  destruct ((97 <=? c - 32) && (c - 32 <=? 122)) eqn:E'; [lia | reflexivity].
Qed.

Lemma unit_exponent_upper (u : jsstring) :
  unit_exponent (toUpperCase u) = unit_exponent u.
Proof.
  unfold unit_exponent, matches_ci, toUpperCase.
  assert (E : map upper_unit (map upper_unit u) = map upper_unit u).
  { rewrite map_map. apply map_ext. intros c. apply upper_unit_idem. }
  rewrite E.
  destruct u as [|c u]; [reflexivity|].
  rewrite !bool_decide_eq_false_2 by discriminate. reflexivity.
Qed.

(** X2. The white space before the unit and the case of its letters do not
    matter: the string parses as the numeral directly followed by the unit
    in capitals. *)
Theorem parseSize_ignores_space_and_case
    (n : numeral) (ws u : jsstring) (k : Z) :
  numeral_ok n -> Forall (fun c => is_space c = true) ws ->
  unit_exponent u = Some k ->
  parseSize (numeral_text n ++ ws ++ u)
  = parseSize (numeral_text n ++ toUpperCase u)
  /\ exists r, parseSize (numeral_text n ++ ws ++ u) = Ok r.
Proof.
  intros Hn Hws Hu.
  rewrite (parseSize_shape _ n ws u k) by (repeat split; assumption).
  rewrite (parseSize_shape (numeral_text n ++ toUpperCase u) n [] (toUpperCase u) k).
  - split; [reflexivity | eauto].
  - repeat split; try assumption; [constructor|].
    now rewrite unit_exponent_upper.
Qed.

Lemma parseSize_ignores_space_and_case_witness :
  numeral_ok (Fraction (str "1") (str "5"))
  /\ Forall (fun c => is_space c = true) [32; 9; 160]
  /\ unit_exponent (str "gB") = Some 3
  /\ parseSize (str "1.5" ++ [32; 9; 160] ++ str "gB") = parseSize (str "1.5GB").
Proof.
  assert (Hn : numeral_ok (Fraction (str "1") (str "5"))).
  { split; (split; [discriminate | repeat constructor]). }
  assert (Hws : Forall (fun c => is_space c = true) [32; 9; 160])
    by (repeat constructor).
  assert (Hu : unit_exponent (str "gB") = Some 3) by reflexivity.
  split; [exact Hn|]. split; [exact Hws|]. split; [exact Hu|].
  destruct (parseSize_ignores_space_and_case _ _ _ _ Hn Hws Hu) as [H _].
  exact H.
Defined.

Lemma round_not_NaN (p q : Z) : F64.round p q <> F64.NaN.
Proof.
  unfold F64.round. destruct (p =? 0); [discriminate|].
  destruct (F64.scaled _ _ _) as [n d].
  destruct (_ =? _); destruct (_ <? _); discriminate.
Qed.

(** X3. What [parseSize] returns is a non-negative integer or infinity, never
    NaN and never a fraction. *)
Theorem parseSize_range (s : jsstring) (r : number) :
  parseSize s = Ok r ->
  (exists z, r = Int z /\ 0 <= z) \/ r = PosInfinity.
Proof.
  intros H. destruct r as [z | |].
  - left. exists z. split; [reflexivity|]. now apply (parseSize_nonneg s).
  - now right.
  - exfalso. destruct (parseSize_sound s _ H) as (n & ws & u & k & Hs).
    rewrite (parseSize_shape s n ws u k Hs) in H.
    pose proof (round_not_NaN (fst (numeral_value n)) (snd (numeral_value n))) as Hr.
    destruct (F64.round _ _) as [m e | |]; simpl in H; try congruence.
    destruct (_ <? _); discriminate.
Qed.

Lemma parseSize_range_witness :
  parseSize (str "0.5") = Ok (Int 0)
  /\ ((exists z, Int 0 = Int z /\ 0 <= z) \/ Int 0 = PosInfinity).
Proof.
  assert (H : parseSize (str "0.5") = Ok (Int 0)) by (vm_compute; reflexivity).
  split; [exact H|]. exact (parseSize_range _ _ H).
Defined.

(** A number of [2^1024] or more is rounded to infinity. *)
Lemma round_overflow (p q : Z) :
  0 < q -> q * 2 ^ 1024 <= p -> F64.round p q = F64.PInf.
Proof.
  intros Hq Hbig.
  assert (Hp : 0 < p).
  { pose proof (Z.pow_pos_nonneg 2 1024 ltac:(lia) ltac:(lia)). nia. }
  pose proof (ilog2_spec p q Hp Hq) as [Hlo Hup]. cbv zeta in Hlo, Hup.
  unfold F64.round. destruct (Z.eqb_spec p 0) as [|_]; [lia|].
  set (L := F64.ilog2 p q) in *.
  assert (HL : 1024 <= L).
  { destruct (Z.le_gt_cases 1024 L) as [|Hsmall]; [assumption|exfalso].
    assert (p * 2 ^ 0 < q * 2 ^ 1024)
      by (apply (pow2_lt_mono p q (Z.max (- (L + 1)) 0) (Z.max (L + 1) 0)); lia).
    lia. }
  rewrite Z.max_l in Hlo by lia. rewrite (Z.max_r (- L)), Z.mul_1_r in Hlo by lia.
  replace (Z.max (L - 52) F64.emin) with (L - 52) by (unfold F64.emin; lia).
  rewrite scaled_eq. rewrite (Z.max_r (- (L - 52))), (Z.max_l (L - 52)) by lia.
  rewrite Z.mul_1_r.
  assert (Hd : 0 < q * 2 ^ (L - 52)).
  { pose proof (Z.pow_pos_nonneg 2 (L - 52) ltac:(lia) ltac:(lia)). nia. }
  assert (Hm : 2 ^ 52 <= F64.nearest_even p (q * 2 ^ (L - 52))).
  { pose proof (nearest_even_bounds p (q * 2 ^ (L - 52)) ltac:(lia) Hd) as [B _].
    assert (2 ^ 52 <= p / (q * 2 ^ (L - 52))); [|lia].
    apply Z.div_le_lower_bound; [assumption|].
    rewrite <- Z.mul_assoc, <- Z.pow_add_r by lia.
    now replace (L - 52 + 52) with L by lia. }
  set (m0 := F64.nearest_even p (q * 2 ^ (L - 52))) in *.
  assert (Hpow : forall e, 972 <= e -> 2 ^ 1024 <= 2 ^ 52 * 2 ^ e).
  { intros e He. rewrite <- Z.pow_add_r by lia. apply Z.pow_le_mono_r; lia. }
  destruct (Z.eqb_spec m0 (2 ^ 53)) as [E | E].
  - pose proof (Hpow (Z.max (L - 52 + 1) 0) ltac:(lia)).
    destruct (Z.ltb_spec (2 ^ 52 * 2 ^ Z.max (L - 52 + 1) 0) (2 ^ 1024));
      [lia | reflexivity].
  - pose proof (Hpow (Z.max (L - 52) 0) ltac:(lia)).
    pose proof (Z.pow_pos_nonneg 2 (Z.max (L - 52) 0) ltac:(lia) ltac:(lia)).
    destruct (Z.ltb_spec (m0 * 2 ^ Z.max (L - 52) 0) (2 ^ 1024));
      [nia | reflexivity].
Qed.

(** X4. A size whose number is [2^1024] or more, whatever its unit, parses to
    infinity: no error is raised for a number that binary64 does not hold. *)
Theorem parseSize_overflow
    (s : jsstring) (n : numeral) (ws u : jsstring) (k : Z) :
  size_shape s n ws u k ->
  snd (numeral_value n) * 2 ^ 1024 <= fst (numeral_value n) ->
  parseSize s = Ok PosInfinity.
Proof.
  intros Hs Hbig. rewrite (parseSize_shape s n ws u k Hs).
  destruct Hs as (_ & Hn & _ & _).
  destruct (numeral_value_sign n Hn) as [_ Hq].
  now rewrite round_overflow.
Qed.

Lemma digits_forallb (s : jsstring) :
  s <> [] -> forallb is_digit s = true -> digits s.
Proof.
  intros Hne H. split; [assumption|].
  apply Forall_forall. intros c Hc.
  rewrite forallb_forall in H. apply H. now apply list_elem_of_In.
Qed.

Lemma parseSize_overflow_witness :
  size_shape (str "1" ++ repeat_string (str "0") 309 ++ str "B")
    (Whole (str "1" ++ repeat_string (str "0") 309)) [] (str "B") 0
  /\ snd (numeral_value (Whole (str "1" ++ repeat_string (str "0") 309))) * 2 ^ 1024
     <= fst (numeral_value (Whole (str "1" ++ repeat_string (str "0") 309)))
  /\ parseSize (str "1" ++ repeat_string (str "0") 309 ++ str "B") = Ok PosInfinity.
Proof.
  assert (Hs : size_shape (str "1" ++ repeat_string (str "0") 309 ++ str "B")
                 (Whole (str "1" ++ repeat_string (str "0") 309)) [] (str "B") 0).
  { split; [reflexivity|]. split; [|split; [constructor | reflexivity]].
    apply digits_forallb; [discriminate | vm_compute; reflexivity]. }
  assert (Hbig : snd (numeral_value (Whole (str "1" ++ repeat_string (str "0") 309)))
                 * 2 ^ 1024
                 <= fst (numeral_value (Whole (str "1" ++ repeat_string (str "0") 309))))
    by (vm_compute; discriminate).
  split; [exact Hs|]. split; [exact Hbig|].
  exact (parseSize_overflow _ _ _ _ _ Hs Hbig).
Defined.

(** ** The generators, read by read *)


Section Reads.
Context {A G : Type} `{R : Readable G (list A)}.
Variables (target : G -> number) (produced : G -> Z) (chunk_of : G -> list A).

Hypothesis read_spec : forall g,
  match next_data (target g) (produced g) (chunk_of g) with
  | None => _read g = (g, None)
  | Some data =>
      exists g', _read g = (g', Some data)
        /\ target g' = target g
        /\ produced g' = produced g + len data
        /\ chunk_of g' = chunk_of g
  end.



(** With an empty chunk and something left to produce every read pushes
    an empty value, and the end never comes. *)
Lemma reads_empty_chunk (t : Z) (n : nat) : forall g,
  target g = Int t -> produced g < t -> chunk_of g = [] ->
  pull_all n g = None.
Proof using read_spec.
  induction n as [|n IH]; intros g Ht Hp Hc; [reflexivity|].
  cbn [pull_all]. pose proof (read_spec g) as Hr. rewrite Ht, Hc in Hr.
  unfold next_data in Hr. simpl in Hr.
  destruct (Z.leb_spec t (produced g)); [lia|].
  destruct Hr as (g' & -> & Ht' & Hp' & Hc').
  unfold slice0 in Hp'. rewrite take_nil in Hp'. unfold len in Hp'. simpl in Hp'.
  rewrite (IH g'); [reflexivity | congruence | lia | congruence].
Qed.

End Reads.



(** ** The stream, read by read *)






(** ** Whole runs *)



Lemma generateData_text
    (fuel : nat) (size output : jsstring) (options : Options) (w : World)
    (targetBytes : number) (g : TextDataGenerator.t) :
  parseSize size = Ok targetBytes ->
  TextDataGenerator.new targetBytes (pattern options) (chunkSize options) = Ok g ->
  generateData fuel (str "text") size output options w
  = (do _ <- flow fuel (on_data targetBytes)
               {| lastProgress := Int 0; bytesWritten := 0 |} (TextGen g) ;
     log (Console (Complete output targetBytes)))
      (add_events (opened (str "text") output targetBytes) w).
Proof.
  intros Hp Hnew. unfold generateData, bind at 1 2 3 4 5. rewrite Hp. simpl.
  unfold new_generator. rewrite bool_decide_eq_true_2 by reflexivity.
  unfold bind at 1. rewrite Hnew. simpl.
  unfold emit. now rewrite !add_events_app.
Qed.


(** ** Runs that never end *)





Lemma text_new_fields (target : number) (pattern : option jsstring)
    (chunkSize : option number) (g : TextDataGenerator.t) :
  TextDataGenerator.new target pattern chunkSize = Ok g ->
  TextDataGenerator.targetSize g = target /\ TextDataGenerator.generated g = 0.
Proof.
  unfold TextDataGenerator.new.
  destruct (chunkSize_or_default chunkSize) as [c | |]; [|discriminate|].
  - destruct (_ <? 0); [discriminate|]. now intros [= <-].
  - now intros [= <-].
Qed.

(** A text generator with an empty chunk and something to produce pushes
    empty strings for ever: nothing reaches the listener or the file. *)
Lemma flow_empty_chunk {L} (listener : list Z -> L -> M L) (t : Z) (fuel : nat) :
  forall (l : L) (g : TextDataGenerator.t) (w : World),
  TextDataGenerator.targetSize g = Int t ->
  TextDataGenerator.generated g < t ->
  TextDataGenerator.chunk g = [] ->
  flow fuel listener l (TextGen g) w = (Unfinished, w).
Proof.
  induction fuel as [|fuel IH]; intros l g w Ht Hg Hc; [reflexivity|].
  cbn [flow stream_read]. unfold _read, text_readable, TextDataGenerator.read.
  rewrite Ht, Hc. unfold next_data.
  destruct (Z.leb_spec t (TextDataGenerator.generated g)); [lia|].
  unfold slice0. rewrite take_nil. cbn [fmap option_fmap option_map utf8_encode].
  apply IH; simpl; [reflexivity | lia | reflexivity].
Qed.

(** X7. What a negative chunk size does, which only a caller of [generateData]
    can pass ([parseSize] returns none). In binary mode, and in text mode
    when it is at most minus the length of the base pattern, a RangeError
    is thrown before the file is created. In text mode otherwise the
    chunk is empty: the file is created, and nothing is ever written to it
    nor is it ended. *)
Theorem negative_chunk_size_runs
    (fuel : nat) (size output : jsstring) (options : Options) (w : World)
    (t c : Z) :
  parseSize size = Ok (Int t) -> 0 < t ->
  chunkSize options = Some (Int c) -> c < 0 ->
  let basePattern := TextDataGenerator.pattern_or_default (pattern options) ++ [10] in
  generateData fuel (str "binary") size output options w
  = (Thrown RangeError,
     add_events [Console (Started (str "binary") (Int t) output); Mkdir output] w)
  /\ (c <= - len basePattern ->
      generateData fuel (str "text") size output options w
      = (Thrown RangeError,
         add_events [Console (Started (str "text") (Int t) output); Mkdir output] w))
  /\ (- len basePattern < c ->
      generateData fuel (str "text") size output options w
      = (Unfinished, add_events (opened (str "text") output (Int t)) w)).
Proof.
  intros Hp Ht Hcs Hc basePattern.
  destruct (negative_chunk_size (Int t) (binaryPattern options) c Hc) as (Hb & _).
  destruct (negative_chunk_size (Int t) (pattern options) c Hc) as (_ & Hlow & Hhigh).
  fold basePattern in Hlow, Hhigh.
  split; [|split].
  - unfold generateData, bind. rewrite Hp. simpl. unfold new_generator.
    rewrite bool_decide_eq_false_2 by discriminate.
    rewrite bool_decide_eq_true_2 by reflexivity.
    unfold bind. rewrite Hcs, Hb. unfold emit. now rewrite add_events_app.
  - intros Hle. unfold generateData, bind. rewrite Hp. simpl. unfold new_generator.
    rewrite bool_decide_eq_true_2 by reflexivity.
    unfold bind. rewrite Hcs, (Hlow Hle). simpl.
    unfold throw, emit. now rewrite add_events_app.
  - intros Hgt. destruct (Hhigh Hgt) as (g & Hnew & Hchunk).
    rewrite <- Hcs in Hnew.
    destruct (text_new_fields _ _ _ _ Hnew) as [Htg Hgen].
    rewrite (generateData_text _ _ _ _ _ _ _ Hp Hnew).
    unfold bind. rewrite (flow_empty_chunk _ t); [reflexivity | assumption | lia | assumption].
Qed.

Lemma negative_chunk_size_runs_witness :
  generateData 7 (str "text") (str "1KB") (str "out.txt")
    {| pattern := Some (str "AB"); binaryPattern := None;
       chunkSize := Some (Int (-2)) |} (fresh (fun _ => 0) (fun _ => 0))
  = (Unfinished,
     add_events (opened (str "text") (str "out.txt") (Int 1024))
       (fresh (fun _ => 0) (fun _ => 0))).
Proof.
  destruct (negative_chunk_size_runs 7 (str "1KB") (str "out.txt")
              {| pattern := Some (str "AB"); binaryPattern := None;
                 chunkSize := Some (Int (-2)) |} (fresh (fun _ => 0) (fun _ => 0))
              1024 (-2) ltac:(vm_compute; reflexivity) ltac:(lia) eq_refl ltac:(lia))
    as (_ & _ & H).
  apply H. vm_compute. reflexivity.
Defined.

(** ** What the file holds *)

(** X8. The memory [Buffer.allocUnsafe] hands out never shows: whatever the
    size and the pattern, the chunk (or the error) is the same in two
    worlds that differ only in what their memory holds. *)
Theorem uninitialised_memory_never_shows
    (size : number) (pattern : option jsstring) (w1 w2 : World) :
  random w1 = random w2 -> drawn w1 = drawn w2 ->
  fst (BinaryDataGenerator.createBinaryPattern size pattern w1)
  = fst (BinaryDataGenerator.createBinaryPattern size pattern w2).
Proof.
  intros Hr Hd.
  destruct size as [c | |]; try reflexivity.
  destruct (Z.lt_ge_cases c 0) as [Hneg | Hpos].
  - unfold BinaryDataGenerator.createBinaryPattern, BinaryDataGenerator.allocUnsafe.
    destruct (Z.ltb_spec c 0); [reflexivity | lia].
  - destruct (createBinaryPattern_ok c pattern w1 Hpos)
      as (chunk1 & w1' & -> & Hl1 & Hb1 & _).
    destruct (createBinaryPattern_ok c pattern w2 Hpos)
      as (chunk2 & w2' & -> & Hl2 & Hb2 & _).
    simpl. f_equal. apply list_eq. intros i. unfold len in *.
    destruct (Nat.lt_ge_cases i (Z.to_nat c)) as [Hi | Hi].
    + rewrite Hb1, Hb2 by assumption. f_equal.
      unfold pattern_byte. destruct (fill_of pattern); try reflexivity.
      now rewrite Hr, Hd.
    + rewrite !lookup_ge_None_2 by lia. reflexivity.
Qed.

Lemma uninitialised_memory_never_shows_witness :
  fst (BinaryDataGenerator.createBinaryPattern (Int 6) (Some (str "random"))
         (fresh (fun _ => 170) (fun k => Z.of_nat k * 97)))
  = fst (BinaryDataGenerator.createBinaryPattern (Int 6) (Some (str "random"))
           (fresh (fun n => Z.of_nat n) (fun k => Z.of_nat k * 97))).
Proof.
  apply (uninitialised_memory_never_shows (Int 6) (Some (str "random"))
           (fresh (fun _ => 170) (fun k => Z.of_nat k * 97))
           (fresh (fun n => Z.of_nat n) (fun k => Z.of_nat k * 97))
           eq_refl eq_refl).
Defined.











(** ** The chunk size on the command line *)

(** X12. The command parses the chunk size before anything else: a malformed
    one is the error of the command, with nothing printed and nothing
    created, even when the size is malformed too or the type is unknown.
    A chunk size that parses to Infinity fails in the constructor with a
    RangeError, after the start is printed and the directory made but
    before the file is created. *)
Theorem command_chunk_size_errors (fuel : nat) (options : CommandLine) (w : World) :
  (forall e, parseSize (cli_chunkSize options) = Err e ->
     action fuel options w = (Thrown (InvalidSizeFormat (cli_chunkSize options)), w))
  /\ (forall targetBytes,
        parseSize (cli_chunkSize options) = Ok PosInfinity ->
        parseSize (cli_size options) = Ok targetBytes ->
        cli_type options = str "text" \/ cli_type options = str "binary" ->
        action fuel options w
        = (Thrown RangeError,
           add_events [Console (Started (cli_type options) targetBytes
                                  (cli_output options));
                       Mkdir (cli_output options)] w)).
Proof.
  split.
  - intros e He. unfold action, bind. rewrite He.
    unfold parseSize in He.
    destruct (size_match (cli_chunkSize options)) as [[m1 m2]|]; [discriminate|].
    now injection He as <-.
  - intros targetBytes Hc Hp Hty. unfold action, bind. rewrite Hc. simpl.
    unfold generateData, bind. rewrite Hp. simpl. unfold new_generator.
    destruct Hty as [-> | ->].
    + rewrite bool_decide_eq_true_2 by reflexivity.
      unfold bind, emit. now rewrite add_events_app.
    + rewrite bool_decide_eq_false_2 by discriminate.
      rewrite bool_decide_eq_true_2 by reflexivity.
      unfold bind, emit. now rewrite add_events_app.
Qed.

Lemma command_chunk_size_errors_witness :
  action 3
    {| cli_type := str "video"; cli_size := str "bogus"; cli_output := str "o";
       cli_pattern := None; cli_binaryPattern := str "sequence";
       cli_chunkSize := str "64 K" |} (fresh (fun _ => 0) (fun _ => 0))
  = (Thrown (InvalidSizeFormat (str "64 K")), fresh (fun _ => 0) (fun _ => 0)).
Proof.
  destruct (command_chunk_size_errors 3
              {| cli_type := str "video"; cli_size := str "bogus"; cli_output := str "o";
                 cli_pattern := None; cli_binaryPattern := str "sequence";
                 cli_chunkSize := str "64 K" |} (fresh (fun _ => 0) (fun _ => 0)))
    as [H _].
  apply (H (InvalidSizeFormat (str "64 K"))). vm_compute. reflexivity.
Defined.

(** ** The events of a run *)















(** ** Empty inputs *)



(** X16. An empty pattern is no pattern: [generateData] and the command do
    with it exactly what they do without one, in every mode. *)
Theorem empty_pattern_is_default :
  (forall fuel type size output binaryPattern chunkSize w,
     generateData fuel type size output
       {| pattern := Some []; binaryPattern := binaryPattern;
          chunkSize := chunkSize |} w
     = generateData fuel type size output
         {| pattern := None; binaryPattern := binaryPattern;
            chunkSize := chunkSize |} w)
  /\ (forall fuel type size output binaryPattern chunkSize w,
        action fuel
          {| cli_type := type; cli_size := size; cli_output := output;
             cli_pattern := Some []; cli_binaryPattern := binaryPattern;
             cli_chunkSize := chunkSize |} w
        = action fuel
            {| cli_type := type; cli_size := size; cli_output := output;
               cli_pattern := None; cli_binaryPattern := binaryPattern;
               cli_chunkSize := chunkSize |} w).
Proof.
  assert (G : forall fuel type size output bp cs w,
            generateData fuel type size output
              {| pattern := Some []; binaryPattern := bp; chunkSize := cs |} w
            = generateData fuel type size output
                {| pattern := None; binaryPattern := bp; chunkSize := cs |} w).
  { intros fuel type size output bp cs w. reflexivity. }
  split; [exact G|].
  intros fuel type size output bp cs w. unfold action, bind.
  cbn [cli_type cli_size cli_output cli_pattern cli_binaryPattern cli_chunkSize].
  destruct (of_result (parseSize cs) w) as [[c | e |] w1]; [|reflexivity..].
  apply G.
Qed.

(** ** Durations in the script *)






